(** * Subpipe: a shallow embedding of the subtitle pipeline

    Modelled sources: [src/transcribe_only.py], [src/translate_only.py],
    [src/pipeline.py], [src/embed_subtitles.py] and [src/mp3extractor.py].

    Modelling conventions.
    - A Python [str] is a list of Unicode code points ([pystr]); [len] is
      [length], [s[:n]] is [py_slice_to], [str.strip] is [py_strip].
    - A Python [float] (segment times) is represented by its exact value, a
      rational [Q]; float operations round that value to binary64
      ([round_double]); overflow to infinity is not represented.
    - Exceptions are the constructors of [exc]; a fallible computation
      returns [exc + A] ([inl] = raised).
    - External engines (the NLLB translator, the NLTK sentence splitter, the
      encoder invoked by the pipeline stages) are section variables.
    - File-system and process effects ([os.makedirs], [subprocess.run], the
      MoviePy clip) are logged as [effect]s, in the order attempted. *)

From stdpp Require Import base list strings gmap pretty.
From Stdlib Require Import ZArith QArith Qround Qabs Qpower Lqa Lia.

(* ------------------------------------------------------------------ *)
(** ** Python strings *)

Definition pystr := list N.

(** An ASCII literal as a Python string. *)
Definition lit (s : string) : pystr :=
  map Ascii.N_of_ascii (String.list_ascii_of_string s).

(** [str.isspace] on one code point (Unicode White_Space as Python uses it). *)
Definition py_isspace (c : N) : bool :=
  ((9 <=? c) && (c <=? 13))%N || ((28 <=? c) && (c <=? 32))%N
  || (c =? 133)%N || (c =? 160)%N || (c =? 5760)%N
  || ((8192 <=? c) && (c <=? 8202))%N
  || (c =? 8232)%N || (c =? 8233)%N || (c =? 8239)%N
  || (c =? 8287)%N || (c =? 12288)%N.

Fixpoint py_lstrip (s : pystr) : pystr :=
  match s with
  | [] => []
  | c :: s' => if py_isspace c then py_lstrip s' else s
  end.

(** [str.strip()] *)
Definition py_strip (s : pystr) : pystr := rev (py_lstrip (rev (py_lstrip s))).

(** The newline character. *)
Definition nl : pystr := [10%N].

(** Python slice [xs[:n]] for an integer [n] (negative counts from the end). *)
Definition py_slice_to {A} (n : Z) (xs : list A) : list A :=
  if (0 <=? n)%Z then take (Z.to_nat n) xs
  else take (Z.to_nat (Z.of_nat (length xs) + n)) xs.

(** [sep.join(xs)] *)
Fixpoint py_join (sep : pystr) (xs : list pystr) : pystr :=
  match xs with
  | [] => []
  | [x] => x
  | x :: xs' => x ++ sep ++ py_join sep xs'
  end.

(* ------------------------------------------------------------------ *)
(** ** Integer formatting: [f"{n:0w}"] *)

Definition digit (d : Z) : N := Z.to_N (48 + d).

Fixpoint dec_digits_fuel (fuel : nat) (n : Z) : pystr :=
  match fuel with
  | O => []
  | S f => if (n <? 10)%Z then [digit n]
           else dec_digits_fuel f (n / 10) ++ [digit (n mod 10)]
  end.

(** [str(n)] for [n >= 0]. *)
Definition dec_digits (n : Z) : pystr :=
  dec_digits_fuel (S (Z.to_nat (Z.log2 n))) n.

Definition zfill (w : nat) (ds : pystr) : pystr :=
  replicate (w - length ds) 48%N ++ ds.

(** [format(n, "0w")]: zero padding to total width [w], after the sign. *)
Definition fmt0w (w : nat) (n : Z) : pystr :=
  if (n <? 0)%Z then lit "-" ++ zfill (w - 1) (dec_digits (- n))
  else zfill w (dec_digits n).

(** [str(idx)] for the SRT index line. *)
Definition fmt_int (n : Z) : pystr := fmt0w 0 n.

(* ------------------------------------------------------------------ *)
(** ** Binary64 arithmetic on times

    A Python [float] is represented by its exact value, a rational. Every
    float operation of the code is the exact operation followed by
    [round_double]: rounding to nearest, ties to even, to 53 significant
    bits, with subnormal spacing [2^-1074]. Overflow to infinity (results of
    magnitude [2^1024] or more) is not represented. *)

(** [floor (log2 a)] for [a > 0]. *)
Definition qlog2 (a : Q) : Z :=
  let k := (Z.log2 (Qnum a) - Z.log2 (Zpos (Qden a)))%Z in
  if Qle_bool (Qpower 2 k) a then k else (k - 1)%Z.

(** Nearest integer, ties to even. *)
Definition round_half_even (m : Q) : Z :=
  let f := Qfloor m in
  let r := m - inject_Z f in
  if Qle_bool (1 # 2) r then
    if Qeq_bool r (1 # 2) then (if Z.even f then f else f + 1)%Z else (f + 1)%Z
  else f.

(** The binary64 value nearest to [q] (round to nearest, ties to even). *)
Definition round_double (q : Q) : Q :=
  let q := Qred q in
  if Qeq_bool q 0 then 0 else
  let a := Qabs q in
  let e := Z.max (qlog2 a - 52) (-1074) in
  let r := inject_Z (round_half_even (a / Qpower 2 e)) * Qpower 2 e in
  if Qle_bool 0 q then r else - r.

Definition float_add (x y : Q) : Q := round_double (x + y).
Definition float_sub (x y : Q) : Q := round_double (x - y).
Definition float_mul (x y : Q) : Q := round_double (x * y).
Definition float_div (x y : Q) : Q := round_double (x / y).

(** [x < y] on floats. *)
Definition Qltb (x y : Q) : bool := negb (Qle_bool y x).

(** [int(x)]: truncation toward zero. *)
Definition py_int (q : Q) : Z :=
  if Qle_bool 0 q then Qfloor q else (- Qfloor (- q))%Z.

(** C [fmod(x, w)]: exact, with the sign of [x]. *)
Definition c_fmod (x w : Q) : Q := x - w * inject_Z (py_int (x / w)).

(** [x % w] on floats (CPython [float_rem]). *)
Definition py_float_mod (x w : Q) : Q :=
  let m := c_fmod x w in
  if Qeq_bool m 0 then 0
  else if negb (Bool.eqb (Qltb w 0) (Qltb m 0)) then float_add m w else m.

(** [x // w] on floats (CPython [_float_div_mod]). *)
Definition py_float_floordiv (x w : Q) : Q :=
  let m := c_fmod x w in
  let div := float_div (float_sub x m) w in
  let div := if negb (Qeq_bool m 0) && negb (Bool.eqb (Qltb w 0) (Qltb m 0))
             then float_sub div 1 else div in
  if Qeq_bool div 0 then 0
  else
    let fd := inject_Z (Qfloor div) in
    if Qltb (1 # 2) (float_sub div fd) then float_add fd 1 else fd.

(** The exact floored remainder [a - b * floor (a / b)], used in proofs. *)
Definition py_mod (a b : Q) : Q := a - b * inject_Z (Qfloor (a / b)).

(** One timestamp of [save_srt_segments]:
    [f"{int(t // 3600):02}:{int((t % 3600) // 60):02}:{int(t % 60):02},{int((t * 1000) % 1000):03}"] *)
Definition fmt_time (t : Q) : pystr :=
  fmt0w 2 (py_int (py_float_floordiv t 3600)) ++ lit ":" ++
  fmt0w 2 (py_int (py_float_floordiv (py_float_mod t 3600) 60)) ++ lit ":" ++
  fmt0w 2 (py_int (py_float_mod t 60)) ++ lit "," ++
  fmt0w 3 (py_int (py_float_mod (float_mul t 1000) 1000)).

(** A segment [(start, end, text)]. *)
Definition seg := (Q * Q * pystr)%type.

(** The block written for segment number [idx]. *)
Definition srt_entry (idx : Z) (sg : seg) : pystr :=
  let '(start, end_, text) := sg in
  fmt_int idx ++ nl ++ fmt_time start ++ lit " --> " ++ fmt_time end_
  ++ nl ++ text ++ nl ++ nl.

(** The file contents written by [save_srt_segments]: the loop over
    [enumerate(segments, 1)], one [f.write] per segment. *)
Fixpoint srt_loop (idx : Z) (segs : list seg) : pystr :=
  match segs with
  | [] => []
  | sg :: segs' => srt_entry idx sg ++ srt_loop (idx + 1) segs'
  end.

Definition save_srt_segments (segs : list seg) : pystr := srt_loop 1 segs.

(** Two and three decimal digits, as the SRT format spells them. *)
Definition two_digits (n : Z) : pystr := [digit (n / 10); digit (n mod 10)].
Definition three_digits (n : Z) : pystr :=
  [digit (n / 100); digit ((n / 10) mod 10); digit (n mod 10)].

(** [save_txt_segments]: one line per segment text. *)
Definition save_txt_segments (segs : list seg) : pystr :=
  concat (map (fun sg : seg => let '(_, _, text) := sg in text ++ nl) segs).

(* ------------------------------------------------------------------ *)
(** ** Exceptions and the engine-call monad *)

Inductive exc :=
  | KeyError | TypeError | ValueError | FileNotFoundError
  | LookupError | EngineError | OSError.

(** One call of the translation engine: source language (the tokenizer's
    [src_lang]), forced target language, and the sentence given to it. *)
Definition call := (string * string * pystr)%type.

(** Computations that call the engine: the calls made so far, and either the
    exception raised or the result. *)
Definition M (A : Type) := (list call * (exc + A))%type.

Definition mret {A} (a : A) : M A := ([], inr a).

Definition mbind {A B} (m : M A) (f : A -> M B) : M B :=
  match m with
  | (log, inl e) => (log, inl e)
  | (log, inr a) => let '(log', r) := f a in (log ++ log', r)
  end.

Definition mlift {A} (r : exc + A) : M A := ([], r).

Notation "x <- m ;; k" := (mbind m (fun x => k))
  (at level 100, m at next level, right associativity).

(** A Python [for] loop appending one result per element. *)
Fixpoint mmap {A B} (f : A -> M B) (l : list A) : M (list B) :=
  match l with
  | [] => mret []
  | a :: l' => b <- f a ;; bs <- mmap f l' ;; mret (b :: bs)
  end.

(* ------------------------------------------------------------------ *)
(** ** Stage: translation ([src/translate_only.py]) *)

Section Translate.

(** [split_sentences]: NLTK's [sent_tokenize] (may raise [LookupError]) or
    the regex splitter, chosen by configuration. *)
Variable split_sentences : pystr -> exc + list pystr.
(** Tokenize, [model.generate] with [forced_bos_token_id] and decode. *)
Variable engine : string -> string -> pystr -> exc + pystr.
(** Configuration: [subtitles.max_line_length], [subtitles.max_lines],
    [models.language_code_map]. *)
Variable max_line_length max_lines : Z.
Variable language_code_map : gmap string string.
(** [AutoTokenizer.from_pretrained(translation_model)] and
    [AutoModelForSeq2SeqLM.from_pretrained(...).to(device)], lines 154-156:
    [inl] when loading raises. *)
Variable load_models : exc + unit.
(** The file writes of [save_srt_segments] and [save_txt_segments]:
    [os.makedirs(os.path.dirname(path), exist_ok=True)], then [open(path,
    "w")] and the writes of the given contents; [inl] when one of them
    raises. *)
Variable write_text : string -> pystr -> exc + unit.

Definition call_engine (src tgt : string) (sentence : pystr) : M pystr :=
  ([(src, tgt, sentence)], engine src tgt sentence).

(** The length and line limits of [translate_segment], lines 103-106. *)
Definition limit_sentences (text : pystr) (sentences : list pystr) : list pystr :=
  if (max_line_length <? Z.of_nat (length text))%Z
  then py_slice_to max_lines (map (py_slice_to max_line_length) sentences)
  else py_slice_to max_lines sentences.

(** [translate_segment(text, tokenizer, model, target_lang, max_length)];
    the tokenizer carries [src_lang]. *)
Definition translate_segment (src tgt : string) (text : pystr) : M pystr :=
  if (match text with [] => true | _ => false end)
     || (length (py_strip text) <? 3)%nat
  then mret []
  else
    sentences <- mlift (split_sentences text) ;;
    translated <- mmap (call_engine src tgt) (limit_sentences text sentences) ;;
    mret (py_join (lit " ") translated).

(** The loop of [translate], lines 158-166. *)
Definition translate_loop (src tgt : string) (segs : list seg) : M (list seg) :=
  mmap (fun sg : seg =>
          let '(start, end_, text) := sg in
          translated_text <- translate_segment src tgt text ;;
          mret (start, end_, translated_text)) segs.

(** [language_code_map.get(source_lang, source_lang) or "eng_Latn"] *)
Definition map_source_lang (source_lang : string) : string :=
  let mapped := match language_code_map !! source_lang with
                | Some v => v
                | None => source_lang
                end in
  if String.eqb mapped "" then "eng_Latn" else mapped.

(** [translate(segments, source_lang, target_lang, output_srt, output_txt)]:
    load the tokenizer and the model, translate every segment, then write
    the SRT and the TXT file. Its result here is the translated segments and
    the contents of the two files; an exception leaves [translate] unchanged
    (the handlers log and re-raise, [cleanup_gpu] swallows its own errors). *)
Definition translate (segs : list seg) (source_lang target_lang : string)
    (output_srt output_txt : string) : M (list seg * pystr * pystr) :=
  let src := map_source_lang source_lang in
  _ <- mlift load_models ;;
  translated_segments <- translate_loop src target_lang segs ;;
  _ <- mlift (write_text output_srt (save_srt_segments translated_segments)) ;;
  _ <- mlift (write_text output_txt (save_txt_segments translated_segments)) ;;
  mret (translated_segments, save_srt_segments translated_segments,
        save_txt_segments translated_segments).

End Translate.

(* ------------------------------------------------------------------ *)
(** ** JSON transcripts ([save_json_segments], [load_segments]) *)

#[local] Set Warnings "-register-all".

(** A JSON value as [json.load] returns it. *)
Inductive json :=
  | JNull
  | JBool (b : bool)
  | JNum (q : Q)
  | JStr (s : pystr)
  | JArr (l : list json)
  | JObj (kvs : list (pystr * json)).

(** [d[k]] on the dict built from an object: a later duplicate key wins. *)
Definition dict_get (kvs : list (pystr * json)) (k : pystr) : option json :=
  fold_left (fun acc (kv : pystr * json) =>
               if bool_decide (kv.1 = k) then Some kv.2 else acc) kvs None.

(** [json.dump] of a segment tuple: a JSON array. *)
Definition seg_to_json (sg : seg) : json :=
  let '(start, end_, text) := sg in JArr [JNum start; JNum end_; JStr text].

(** The value [save_json_segments(segments, lang, ...)] dumps:
    [{"segments": segments, "lang": lang}]. *)
Definition save_json_segments (segs : list seg) (lang : pystr) : json :=
  JObj [(lit "segments", JArr (map seg_to_json segs)); (lit "lang", JStr lang)].

(** [load_segments]: [return data["segments"], data["lang"]] on the loaded
    value; indexing a non-dict raises [TypeError], a missing key
    [KeyError]. *)
Definition load_segments (data : json) : exc + (json * json) :=
  match data with
  | JObj kvs =>
      match dict_get kvs (lit "segments") with
      | None => inl KeyError
      | Some segments =>
          match dict_get kvs (lit "lang") with
          | None => inl KeyError
          | Some lang => inr (segments, lang)
          end
      end
  | _ => inl TypeError
  end.

(** Reading one loaded segment [[start, end, text]] back as a triple. *)
Definition seg_of_json (j : json) : option seg :=
  match j with
  | JArr [JNum start; JNum end_; JStr text] => Some (start, end_, text)
  | _ => None
  end.

(* ------------------------------------------------------------------ *)
(** ** Orchestrator ([src/pipeline.py]) *)

Inductive stage := Extract | Transcribe | TranslateStage | Subtitles.

Definition stage_name (s : stage) : string :=
  match s with
  | Extract => "extract"
  | Transcribe => "transcribe"
  | TranslateStage => "translate"
  | Subtitles => "subtitles"
  end.

(** The order of the [if "..." in steps] blocks of [run_pipeline]. *)
Definition stage_order : list stage := [Extract; Transcribe; TranslateStage; Subtitles].

(** [Path(...).glob("*.mp4")] keeps the entries whose name ends in [.mp4]. *)
Definition is_mp4 (name : string) : bool :=
  (4 <=? String.length name)%nat &&
  String.eqb (String.substring (String.length name - 4) 4 name) ".mp4".

(** Python truthiness of an optional string argument. *)
Definition py_truthy (a : option string) : bool :=
  match a with
  | Some s => negb (String.eqb s "")
  | None => false
  end.

Section Pipeline.

(** The file system and the external tools, seen through the operations the
    orchestrator uses. *)
Variable World : Type.
Variable path_exists : World -> string -> bool.
(** [Path(p).resolve().as_posix()] *)
Variable resolve : string -> string.
(** The entries of [paths["video_dir"]] in listing order. *)
Variable video_dir_entries : World -> list string.
(** [os.makedirs(output_audio_folder, exist_ok=True)] *)
Variable makedirs_audio : World -> exc + World.
(** The stage helpers ([step_extract_audio], [step_transcribe],
    [step_translate]) and the two embedding back ends. *)
Variable step_extract_audio : string -> World -> exc + World.
Variable step_transcribe : World -> exc + World.
Variable step_translate : World -> exc + World.
Variable add_soft_subs add_burned_subs : string -> World -> exc + World.
(** [subtitles.get('mode', ...)] *)
Variable config_mode : option string.

Definition select_video_file (w : World) (video_arg : option string) : exc + string :=
  match video_arg with
  | Some a =>
      if py_truthy video_arg then
        if path_exists w (resolve a) then inr (resolve a) else inl FileNotFoundError
      else
        match List.filter is_mp4 (video_dir_entries w) with
        | [] => inl FileNotFoundError
        | v :: _ => inr (resolve v)
        end
  | None =>
      match List.filter is_mp4 (video_dir_entries w) with
      | [] => inl FileNotFoundError
      | v :: _ => inr (resolve v)
      end
  end.

Definition step_subtitles (video_file mode : string) (w : World) : exc + World :=
  if String.eqb mode "soft" then add_soft_subs video_file w
  else if String.eqb mode "burned" then add_burned_subs video_file w
  else inl ValueError.

Definition run_step (video_file mode : string) (s : stage) (w : World) : exc + World :=
  match s with
  | Extract => step_extract_audio video_file w
  | Transcribe => step_transcribe w
  | TranslateStage => step_translate w
  | Subtitles => step_subtitles video_file mode w
  end.

(** [stage_name s in steps] *)
Definition requested (steps : list string) (s : stage) : bool :=
  existsb (String.eqb (stage_name s)) steps.

(** The four [if] blocks: the stages entered, and the outcome. An exception
    leaves the [try] block, so no later block runs. *)
Fixpoint run_stages (steps : list string) (video_file mode : string)
    (l : list stage) (w : World) : list stage * (exc + World) :=
  match l with
  | [] => ([], inr w)
  | s :: l' =>
      if requested steps s then
        match run_step video_file mode s w with
        | inl e => ([s], inl e)
        | inr w' => let '(tr, r) := run_stages steps video_file mode l' w' in (s :: tr, r)
        end
      else run_stages steps video_file mode l' w
  end.

(** [mode or subtitles.get('mode', 'burned')] *)
Definition final_mode (mode : option string) : string :=
  let cfg := match config_mode with Some m => m | None => "burned" end in
  if py_truthy mode then match mode with Some m => m | None => cfg end else cfg.

(** [run_pipeline(steps, mode, video_arg)]; the [except] clauses log and
    re-raise, so the exception reaches the caller unchanged. *)
Definition run_pipeline (steps : list string) (mode video_arg : option string)
    (w : World) : list stage * (exc + World) :=
  match select_video_file w video_arg with
  | inl e => ([], inl e)
  | inr video_file =>
      match makedirs_audio w with
      | inl e => ([], inl e)
      | inr w1 => run_stages steps video_file (final_mode mode) stage_order w1
      end
  end.

End Pipeline.

(* ------------------------------------------------------------------ *)
(** ** Concrete engines used in the examples below *)

(** A splitter that keeps the whole text as one sentence. *)
Definition split_whole (text : pystr) : exc + list pystr := inr [text].

(** An engine that returns its input unchanged. *)
Definition engine_echo (src tgt : string) (sentence : pystr) : exc + pystr :=
  inr sentence.

(** A two-entry French-English engine; other sentences come back unchanged. *)
Definition engine_fr_en (src tgt : string) (sentence : pystr) : exc + pystr :=
  if bool_decide (sentence = lit "Bonjour.") then inr (lit "Hello.")
  else if bool_decide (sentence = lit "Merci.") then inr (lit "Thank you.")
  else inr sentence.

(** Model loading and file writes that succeed. *)
Definition load_ok : exc + unit := inr tt.
Definition write_ok (path : string) (contents : pystr) : exc + unit := inr tt.

(** A three-sentence, 50-character text and a splitter returning its
    three sentences. *)
Definition ex_sentences : list pystr :=
  [lit "Hello there."; lit "How are you today?"; lit "I am fine, thanks."].

Definition ex_text : pystr := lit "Hello there. How are you today? I am fine, thanks.".

Definition ex_split (text : pystr) : exc + list pystr := inr ex_sentences.

(* ------------------------------------------------------------------ *)
(** ** The regex sentence splitter of [split_sentences] *)

Definition char_at (text : pystr) (j : nat) (p : N -> bool) : bool :=
  match text !! j with Some c => p c | None => false end.

Definition is_upper_ascii (c : N) : bool := ((65 <=? c) && (c <=? 90))%N.
Definition is_lower_ascii (c : N) : bool := ((97 <=? c) && (c <=? 122))%N.
Definition is_terminal (c : N) : bool := ((c =? 46) || (c =? 63) || (c =? 33))%N.

Section RegexSplit.

(** Python's [\w] on [str] patterns (Unicode word characters). *)
Variable is_word : N -> bool.

(** Does the pattern
    [(?<!\w\.\w.)(?<![A-Z][a-z]\.)(?<=\.|\?|\!)\s(?=[A-Z])]
    match the single character at index [i]? *)
Definition regex_boundary (text : pystr) (i : nat) : bool :=
  char_at text i py_isspace
  && char_at text (S i) is_upper_ascii
  && ((1 <=? i)%nat && char_at text (i - 1) is_terminal)
  && negb ((4 <=? i)%nat && char_at text (i - 4) is_word
           && char_at text (i - 3) (N.eqb 46) && char_at text (i - 2) is_word
           && char_at text (i - 1) (fun c => negb (c =? 10)%N))
  && negb ((3 <=? i)%nat && char_at text (i - 3) is_upper_ascii
           && char_at text (i - 2) is_lower_ascii && char_at text (i - 1) (N.eqb 46)).

(** [re.split(pattern, text)]: scan [rest] (the suffix of [text] from index
    [i]), cutting at every matching character, which is dropped. *)
Fixpoint re_split_go (text rest : pystr) (i : nat) (cur : pystr) : list pystr :=
  match rest with
  | [] => [cur]
  | c :: rest' =>
      if regex_boundary text i then cur :: re_split_go text rest' (S i) []
      else re_split_go text rest' (S i) (cur ++ [c])
  end.

Definition regex_split (text : pystr) : list pystr := re_split_go text text 0 [].

(** The [use_regex_splitter] branch:
    [[s.strip() for s in sentences if s.strip()]]. *)
Definition split_sentences_regex (text : pystr) : list pystr :=
  map py_strip (List.filter (fun s => negb (bool_decide (py_strip s = []))) (regex_split text)).

End RegexSplit.

(* ------------------------------------------------------------------ *)
(** ** What [transcribe] writes ([src/transcribe_only.py]) *)

(** Given the segments the recognition engine yields and the language it
    detects, [transcribe] strips each text, maps the language code with
    [language_code_map.get(info.language, info.language)] and writes the JSON
    value and the SRT file. Language codes are ASCII, so [lit] gives their
    code points. *)
Definition transcribe_outputs (language_code_map : gmap string string)
    (recognized : list seg) (detected : string) : json * pystr :=
  let transcription_segments :=
    map (fun sg : seg => let '(start, end_, text) := sg in (start, end_, py_strip text))
        recognized in
  let nllb_lang := match language_code_map !! detected with
                   | Some v => v
                   | None => detected
                   end in
  (save_json_segments transcription_segments (lit nllb_lang),
   save_srt_segments transcription_segments).

(* ------------------------------------------------------------------ *)
(** ** Side effects on the file system and external processes *)

(** The effects [src/embed_subtitles.py] and [src/mp3extractor.py] perform,
    in the order they are attempted. *)
Inductive effect :=
  | EMakedirs (d : string)          (* os.makedirs(d, exist_ok=True) *)
  | ERun (cmd : list string)        (* subprocess.run(cmd, check=True, ...) *)
  | EOpenClip (v : string)          (* VideoFileClip(v) *)
  | EWriteAudio (out : string)      (* video.audio.write_audiofile(out) *)
  | ECloseClip.                     (* video.close() *)

(** A computation over a world [W]: the effects it attempted and its outcome. *)
Definition Eff (W : Type) := (list effect * (exc + W))%type.

(** Attempt effect [ef] through [act]; on failure the effect is still logged. *)
Definition eff_step {W} (ef : effect) (act : W -> exc + W) (w : W)
    (k : W -> Eff W) : Eff W :=
  match act w with
  | inl e => ([ef], inl e)
  | inr w' => let '(l, r) := k w' in (ef :: l, r)
  end.

(** [d[k]] on a dict of strings. *)
Definition dict_index (d : gmap string string) (k : string) : exc + string :=
  match d !! k with Some v => inr v | None => inl KeyError end.

Definition sum_bind {A B} (m : exc + A) (k : A -> exc + B) : exc + B :=
  match m with inl e => inl e | inr a => k a end.

Section Embed.

Variable World : Type.
Variable path_exists : World -> string -> bool.
(** [os.path.dirname] *)
Variable dirname : string -> string.
Variable makedirs : string -> World -> exc + World.
(** [subprocess.run(cmd, check=True, ...)]: [CalledProcessError] or
    [FileNotFoundError] surface as an exception. *)
Variable run_process : list string -> World -> exc + World.
(** [config["ffmpeg"]]; each value is kept as the text [str()] and an
    f-string give it. *)
Variable ffmpeg_conf : gmap string string.

Definition add_soft_subs (video subs output : string) (w : World) : Eff World :=
  if negb (path_exists w video) then ([], inl FileNotFoundError)
  else if negb (path_exists w subs) then ([], inl FileNotFoundError)
  else
    let output_dir := dirname output in
    eff_step (EMakedirs output_dir) (makedirs output_dir) w (fun w1 =>
      let command := ["ffmpeg"; "-i"; video; "-i"; subs; "-c:v"; "copy";
                      "-c:a"; "copy"; "-c:s"; "mov_text"; "-y"; output] in
      eff_step (ERun command) (run_process command) w1 (fun w2 => ([], inr w2))).

Definition position_map : gmap string Z :=
  <["bottom" := 2%Z]> (<["top" := 8%Z]> (<["center" := 10%Z]> ∅)).

(** [position_map.get(ffmpeg_conf["subtitle_position"], 2)] *)
Definition alignment_of (pos : string) : Z :=
  match position_map !! pos with Some a => a | None => 2%Z end.

Definition burned_style (subs : string) (alignment : Z) : exc + string :=
  sum_bind (dict_index ffmpeg_conf "font_name") (fun font_name =>
  sum_bind (dict_index ffmpeg_conf "font_size") (fun font_size =>
  sum_bind (dict_index ffmpeg_conf "primary_colour") (fun primary_colour =>
  sum_bind (dict_index ffmpeg_conf "outline_colour") (fun outline_colour =>
  sum_bind (dict_index ffmpeg_conf "border_style") (fun border_style =>
  sum_bind (dict_index ffmpeg_conf "outline") (fun outline =>
  sum_bind (dict_index ffmpeg_conf "shadow") (fun shadow =>
  inr ("subtitles='" +:+ subs +:+ "':force_style="
       +:+ "'FontName=" +:+ font_name +:+ ","
       +:+ "FontSize=" +:+ font_size +:+ ","
       +:+ "PrimaryColour=" +:+ primary_colour +:+ ","
       +:+ "OutlineColour=" +:+ outline_colour +:+ ","
       +:+ "BorderStyle=" +:+ border_style +:+ ","
       +:+ "Outline=" +:+ outline +:+ ","
       +:+ "Shadow=" +:+ shadow +:+ ","
       +:+ "Alignment=" +:+ pretty alignment +:+ "'")))))))).

Definition burned_command (video subs output : string) : exc + list string :=
  sum_bind (dict_index ffmpeg_conf "subtitle_position") (fun pos =>
  let alignment := alignment_of pos in
  sum_bind (burned_style subs alignment) (fun style =>
  sum_bind (dict_index ffmpeg_conf "preset") (fun preset =>
  sum_bind (dict_index ffmpeg_conf "crf") (fun crf =>
  sum_bind (dict_index ffmpeg_conf "pix_fmt") (fun pix_fmt =>
  inr ["ffmpeg"; "-i"; video; "-vf"; style; "-c:a"; "copy"; "-c:v"; "libx264";
       "-preset"; preset; "-crf"; crf; "-pix_fmt"; pix_fmt; "-y"; output]))))).

Definition add_burned_subs (video subs output : string) (w : World) : Eff World :=
  if negb (path_exists w video) then ([], inl FileNotFoundError)
  else if negb (path_exists w subs) then ([], inl FileNotFoundError)
  else
    let d := dirname output in
    eff_step (EMakedirs d) (makedirs d) w (fun w1 =>
      match burned_command video subs output with
      | inl e => ([], inl e)
      | inr command =>
          eff_step (ERun command) (run_process command) w1 (fun w2 => ([], inr w2))
      end).

End Embed.

Section Extract.

Variable World : Type.
Variable path_exists : World -> string -> bool.
Variable dirname : string -> string.
Variable makedirs : string -> World -> exc + World.
Variable run_process : list string -> World -> exc + World.
(** [VideoFileClip(video_file)], [video.audio.write_audiofile(output_audio)]
    and [video.close()] *)
Variable open_clip : string -> World -> exc + World.
Variable write_audiofile : string -> World -> exc + World.
Variable close_clip : World -> exc + World.
(** [config.get("ffmpeg", {})] (the empty map when the section is absent)
    and [config.get("audio_extraction", {}).get("use_ffmpeg", False)] *)
Variable ffmpeg_conf : gmap string string.
Variable use_ffmpeg : bool.

(** [ffmpeg_conf.get("hwaccel", "none")] *)
Definition hwaccel_setting : string :=
  match ffmpeg_conf !! "hwaccel" with Some h => h | None => "none" end.

Definition extract_command (video_file output_audio : string) : exc + list string :=
  let command := ["ffmpeg"] in
  sum_bind (if negb (String.eqb hwaccel_setting "none")
            then sum_bind (dict_index ffmpeg_conf "hwaccel")
                          (fun h => inr (command ++ ["-hwaccel"; h]))
            else inr command) (fun command =>
  inr (command ++ ["-i"; video_file; "-vn"; "-acodec"; "mp3"; "-y"; output_audio])).

Definition extract_audio_with_ffmpeg (video_file output_audio : string)
    (w : World) : Eff World :=
  match extract_command video_file output_audio with
  | inl e => ([], inl e)
  | inr command =>
      eff_step (ERun command) (run_process command) w (fun w1 => ([], inr w1))
  end.

Definition extract_audio_with_moviepy (video_file output_audio : string)
    (w : World) : Eff World :=
  eff_step (EOpenClip video_file) (open_clip video_file) w (fun w1 =>
  let d := dirname output_audio in
  eff_step (EMakedirs d) (makedirs d) w1 (fun w2 =>
  eff_step (EWriteAudio output_audio) (write_audiofile output_audio) w2 (fun w3 =>
  eff_step ECloseClip close_clip w3 (fun w4 => ([], inr w4))))).

Definition extract_audio_from_video (video_file output_audio : string)
    (w : World) : Eff World :=
  if negb (path_exists w video_file) then ([], inl FileNotFoundError)
  else if use_ffmpeg then extract_audio_with_ffmpeg video_file output_audio w
  else extract_audio_with_moviepy video_file output_audio w.

End Extract.

(* ------------------------------------------------------------------ *)
(** ** Predicates used in the properties below *)

(** The string does not start with whitespace. *)
Definition no_lead_space (s : pystr) : Prop :=
  match s with [] => True | c :: _ => py_isspace c = false end.

(** The string ends with [.], [?] or [!]. *)
Definition ends_terminal (s : pystr) : Prop :=
  match last s with Some c => is_terminal c = true | None => False end.

(** The string starts with an ASCII capital letter. *)
Definition starts_upper (s : pystr) : Prop :=
  match s with c :: _ => is_upper_ascii c = true | [] => False end.

(** The number of newline characters. *)
Definition count_newlines (s : pystr) : nat := length (List.filter (N.eqb 10) s).

(** The [ffmpeg_conf] keys [add_burned_subs] indexes. *)
Definition burned_keys : list string :=
  ["subtitle_position"; "font_name"; "font_size"; "primary_colour";
   "outline_colour"; "border_style"; "outline"; "shadow"; "preset"; "crf"; "pix_fmt"].

(** An engine that fails on one sentence. *)
Definition engine_fail_on (bad : pystr) (src tgt : string) (sentence : pystr)
  : exc + pystr :=
  if bool_decide (sentence = bad) then inl EngineError else inr sentence.

(* ================================================================== *)
(** ** Lemmas on formatting *)

Lemma dec_digits_fuel_small f n :
  (0 <= n < 10)%Z -> dec_digits_fuel (S f) n = [digit n].
Proof. intros H. simpl. destruct (Z.ltb_spec n 10); [done | lia]. Qed.

Lemma dec_digits_fuel_step f n :
  (10 <= n)%Z -> dec_digits_fuel (S f) n = dec_digits_fuel f (n / 10) ++ [digit (n mod 10)].
Proof. intros H. simpl. destruct (Z.ltb_spec n 10); [lia | done]. Qed.

Lemma fuel_ge (n k : Z) : (2 ^ k <= n)%Z -> (0 <= k)%Z ->
  exists f, Z.to_nat (Z.log2 n) = (Z.to_nat k + f)%nat.
Proof.
  intros H Hk. assert (k <= Z.log2 n)%Z.
  { rewrite <- (Z.log2_pow2 k) by lia. apply Z.log2_le_mono. done. }
  exists (Z.to_nat (Z.log2 n) - Z.to_nat k)%nat. lia.
Qed.

Lemma fmt02_two_digits n : (0 <= n < 100)%Z -> fmt0w 2 n = two_digits n.
Proof.
  intros Hn. unfold fmt0w, two_digits. destruct (Z.ltb_spec n 0); [lia |].
  unfold zfill, dec_digits.
  destruct (Z.lt_ge_cases n 10).
  - rewrite dec_digits_fuel_small by lia. simpl.
    rewrite Z.div_small, Z.mod_small by lia. done.
  - destruct (fuel_ge n 3) as [f Hf]; [simpl; lia | lia |]. rewrite Hf.
    change (Z.to_nat 3 + f)%nat with (S (S (S f))).
    rewrite dec_digits_fuel_step by lia.
    rewrite dec_digits_fuel_small by (split; [apply Z.div_pos | apply Z.div_lt_upper_bound]; lia).
    done.
Qed.

Lemma fmt03_three_digits n : (0 <= n < 1000)%Z -> fmt0w 3 n = three_digits n.
Proof.
  intros Hn. unfold fmt0w, three_digits. destruct (Z.ltb_spec n 0); [lia |].
  unfold zfill, dec_digits.
  destruct (Z.lt_ge_cases n 10); [|destruct (Z.lt_ge_cases n 100)].
  - rewrite dec_digits_fuel_small by lia. simpl.
    rewrite (Z.div_small n 100), (Z.div_small n 10), (Z.mod_small 0 10), (Z.mod_small n 10) by lia.
    done.
  - destruct (fuel_ge n 3) as [f Hf]; [simpl; lia | lia |]. rewrite Hf.
    change (Z.to_nat 3 + f)%nat with (S (S (S f))).
    rewrite dec_digits_fuel_step by lia.
    rewrite dec_digits_fuel_small by (split; [apply Z.div_pos | apply Z.div_lt_upper_bound]; lia).
    rewrite (Z.div_small n 100) by lia. rewrite (Z.mod_small (n / 10) 10).
    + done.
    + split; [apply Z.div_pos | apply Z.div_lt_upper_bound]; lia.
  - destruct (fuel_ge n 6) as [f Hf]; [simpl; lia | lia |]. rewrite Hf.
    change (Z.to_nat 6 + f)%nat with (S (S (S (S (S (S f)))))).
    rewrite dec_digits_fuel_step by lia.
    rewrite dec_digits_fuel_step by (apply Z.div_le_lower_bound; lia).
    rewrite dec_digits_fuel_small.
    2:{ rewrite Z.div_div by lia. split; [apply Z.div_pos | apply Z.div_lt_upper_bound]; lia. }
    rewrite Z.div_div by lia. done.
Qed.

(** ** Lemmas on floor, [//] and [%] over rationals *)

Lemma Qfloor_unique (q : Q) (z : Z) :
  inject_Z z <= q -> q < inject_Z z + 1 -> Qfloor q = z.
Proof.
  intros H1 H2. pose proof (Qfloor_le q) as F1. pose proof (Qlt_floor q) as F2.
  rewrite inject_Z_plus in F2. change (inject_Z 1) with 1 in F2.
  assert (Qfloor q < z + 1)%Z.
  { rewrite Zlt_Qlt, inject_Z_plus. change (inject_Z 1) with 1. lra. }
  assert (z < Qfloor q + 1)%Z.
  { rewrite Zlt_Qlt, inject_Z_plus. change (inject_Z 1) with 1. lra. }
  lia.
Qed.

Lemma Qfloor_bounds (q : Q) (a b : Z) :
  inject_Z a <= q -> q < inject_Z b -> (a <= Qfloor q < b)%Z.
Proof.
  intros H1 H2. split.
  - rewrite <- (Qfloor_Z a). apply Qfloor_resp_le. done.
  - rewrite Zlt_Qlt. pose proof (Qfloor_le q). lra.
Qed.

Lemma Qfloor_sub_int (q : Q) (z : Z) : Qfloor (q - inject_Z z) = (Qfloor q - z)%Z.
Proof.
  pose proof (Qfloor_le q). pose proof (Qlt_floor q) as F2.
  rewrite inject_Z_plus in F2. change (inject_Z 1) with 1 in F2.
  apply Qfloor_unique; unfold Z.sub; rewrite inject_Z_plus, inject_Z_opp; lra.
Qed.

Lemma py_int_inject (z : Z) : py_int (inject_Z z) = z.
Proof.
  unfold py_int. destruct (Qle_bool 0 (inject_Z z)) eqn:E.
  - apply Qfloor_Z.
  - replace (- inject_Z z) with (inject_Z (- z)) by (unfold inject_Z; done).
    rewrite Qfloor_Z. lia.
Qed.

Lemma py_int_nonneg (q : Q) : 0 <= q -> py_int q = Qfloor q.
Proof. intros H. unfold py_int. apply Qle_bool_iff in H. rewrite H. done. Qed.

(** [a % b] lies in [0, b) for [b > 0], and equals [a - b * floor (a / b)]. *)
Lemma py_mod_range (a b : Q) : 0 < b -> 0 <= py_mod a b /\ py_mod a b < b.
Proof.
  intros Hb. unfold py_mod.
  pose proof (Qfloor_le (a / b)) as F1. pose proof (Qlt_floor (a / b)) as F2.
  rewrite inject_Z_plus in F2. change (inject_Z 1) with 1 in F2.
  set (u := a / b) in *. set (k := inject_Z (Qfloor u)) in *.
  assert (Ha : a == b * u) by (subst u; field; lra).
  split; nra.
Qed.

Lemma Qfloor_div_bounds (x d : Q) (b : Z) :
  0 < d -> 0 <= x -> x < d * inject_Z b -> (0 <= Qfloor (x / d) < b)%Z.
Proof.
  intros Hd Hx Hb. apply Qfloor_bounds.
  - set (y := x / d). assert (x == d * y) by (subst y; field; lra).
    change (inject_Z 0) with 0. nra.
  - set (y := x / d). assert (x == d * y) by (subst y; field; lra). nra.
Qed.

(** ** Lemmas on binary64 rounding *)

Lemma Qle_bool_comp (p q x y : Q) : p == q -> x == y -> Qle_bool p x = Qle_bool q y.
Proof.
  intros H1 H2. destruct (Qle_bool p x) eqn:E; symmetry.
  - apply Qle_bool_iff. apply Qle_bool_iff in E. rewrite <- H1, <- H2. done.
  - apply not_true_iff_false. intros E'. apply Qle_bool_iff in E'.
    rewrite <- H1, <- H2 in E'. apply Qle_bool_iff in E'. congruence.
Qed.

Lemma Qeq_bool_comp (p q x y : Q) : p == q -> x == y -> Qeq_bool p x = Qeq_bool q y.
Proof.
  intros H1 H2. destruct (Qeq_bool p x) eqn:E; symmetry.
  - apply Qeq_bool_iff. apply Qeq_bool_iff in E. rewrite <- H1, <- H2. done.
  - apply not_true_iff_false. intros E'. apply Qeq_bool_iff in E'.
    rewrite <- H1, <- H2 in E'. apply Qeq_bool_iff in E'. congruence.
Qed.

Lemma py_int_comp (p q : Q) : p == q -> py_int p = py_int q.
Proof.
  intros H. unfold py_int.
  rewrite (Qle_bool_comp 0 0 p q) by (done || reflexivity).
  rewrite (Qfloor_comp p q H).
  rewrite (Qfloor_comp (- p) (- q)) by (rewrite H; reflexivity).
  done.
Qed.

Lemma round_double_comp (p q : Q) : p == q -> round_double p = round_double q.
Proof. intros H. unfold round_double. rewrite (Qred_complete p q H). done. Qed.

Lemma Qred_inject_Z (z : Z) : Qred (inject_Z z) = inject_Z z.
Proof.
  unfold Qred, inject_Z. cbn [Qnum Qden].
  pose proof (Z.ggcd_gcd z 1) as G. pose proof (Z.ggcd_correct_divisors z 1) as D.
  destruct (Z.ggcd z 1) as [g [aa bb]]. simpl in G. rewrite Z.gcd_1_r in G. subst g.
  destruct D as [D1 D2]. rewrite Z.mul_1_l in D1, D2. subst. done.
Qed.

Lemma round_half_even_int (m : Q) (n : Z) : m == inject_Z n -> round_half_even m = n.
Proof.
  intros H. unfold round_half_even.
  rewrite (Qfloor_comp m (inject_Z n) H), Qfloor_Z.
  replace (Qle_bool (1 # 2) (m - inject_Z n)) with false; [done |].
  symmetry. apply not_true_iff_false. rewrite Qle_bool_iff. lra.
Qed.

Lemma round_half_even_nonneg (m : Q) : 0 <= m -> (0 <= round_half_even m)%Z.
Proof.
  intros H. unfold round_half_even.
  assert (F : (0 <= Qfloor m)%Z).
  { change 0%Z with (Qfloor 0). apply Qfloor_resp_le. done. }
  destruct (Qle_bool _ _); [destruct (Qeq_bool _ _); [destruct (Z.even _)|] |]; lia.
Qed.

Lemma Qpower2_neg (e : Z) : (e <= 0)%Z -> Qpower 2 e * inject_Z (2 ^ (- e)) == 1.
Proof.
  intros He. rewrite Zpower_Qpower by lia. change (inject_Z 2) with 2.
  rewrite <- Qpower_plus by discriminate.
  replace (e + - e)%Z with 0%Z by lia. done.
Qed.

Lemma Qdiv_by_inverse (a x y : Q) : x * y == 1 -> a / x == a * y.
Proof.
  intros H. assert (Hx : ~ x == 0).
  { intros Hx. rewrite Hx, Qmult_0_l in H. discriminate. }
  rewrite <- (Qmult_1_r a) at 1. rewrite <- H. field. done.
Qed.

(** Integers of at most 53 bits are doubles: rounding leaves them. *)
Lemma round_double_int (q : Q) (z : Z) :
  q == inject_Z z -> (0 <= z < 2 ^ 53)%Z -> round_double q == inject_Z z.
Proof.
  intros Hq Hz. rewrite (round_double_comp q (inject_Z z) Hq).
  unfold round_double. rewrite Qred_inject_Z.
  destruct (Qeq_bool (inject_Z z) 0) eqn:E0.
  { apply Qeq_bool_iff in E0. rewrite E0. done. }
  assert (Hpos : (0 < z)%Z).
  { destruct (Z.eq_dec z 0) as [-> |]; [discriminate | lia]. }
  assert (Habs : Qabs (inject_Z z) = inject_Z z).
  { unfold Qabs, inject_Z. rewrite Z.abs_eq by lia. done. }
  rewrite Habs.
  assert (Hlg : (qlog2 (inject_Z z) <= 52)%Z).
  { unfold qlog2. cbn [Qnum Qden inject_Z].
    assert (Z.log2 z < 53)%Z by (apply Z.log2_lt_pow2; lia).
    change (Z.log2 1) with 0%Z. destruct (Qle_bool _ _); lia. }
  remember (Z.max (qlog2 (inject_Z z) - 52) (-1074)) as e eqn:Ee.
  assert (He : (e <= 0)%Z) by lia.
  pose proof (Qpower2_neg e He) as P.
  assert (Hm : inject_Z z / Qpower 2 e == inject_Z (z * 2 ^ (- e))).
  { rewrite inject_Z_mult. apply Qdiv_by_inverse. done. }
  cbv zeta. rewrite (round_half_even_int _ _ Hm).
  replace (Qle_bool 0 (inject_Z z)) with true
    by (symmetry; apply Qle_bool_iff; change 0 with (inject_Z 0); rewrite <- Zle_Qle; lia).
  rewrite inject_Z_mult.
  transitivity (inject_Z z * (Qpower 2 e * inject_Z (2 ^ (- e)))); [ring | rewrite P; ring].
Qed.

Lemma round_double_nonneg (q : Q) : 0 <= q -> 0 <= round_double q.
Proof.
  intros Hq. unfold round_double. pose proof (Qred_correct q) as Hr.
  destruct (Qeq_bool (Qred q) 0); [done |].
  replace (Qle_bool 0 (Qred q)) with true by (symmetry; apply Qle_bool_iff; lra).
  cbv zeta. set (e := Z.max _ _).
  assert (P : 0 < Qpower 2 e) by (apply Qpower_0_lt; lra).
  apply Qmult_le_0_compat; [| lra].
  change 0 with (inject_Z 0). rewrite <- Zle_Qle. apply round_half_even_nonneg.
  apply Qle_shift_div_l; [done |]. rewrite Qmult_0_l. apply Qabs_nonneg.
Qed.

(** For [x >= 0] and [w > 0], [x % w] is the exact floored remainder. *)
Lemma py_float_mod_nonneg (x w : Q) :
  0 <= x -> 0 < w -> py_float_mod x w == py_mod x w.
Proof.
  intros Hx Hw. unfold py_float_mod, c_fmod.
  rewrite py_int_nonneg by (apply Qle_shift_div_l; [done | lra]).
  fold (py_mod x w). destruct (py_mod_range x w Hw) as [R1 R2].
  destruct (Qeq_bool (py_mod x w) 0) eqn:E.
  - apply Qeq_bool_iff in E. rewrite E. done.
  - unfold Qltb.
    replace (Qle_bool 0 w) with true by (symmetry; apply Qle_bool_iff; lra).
    replace (Qle_bool 0 (py_mod x w)) with true by (symmetry; apply Qle_bool_iff; lra).
    done.
Qed.

(** For [0 <= x < 2^53] and a positive integer [w], [x // w] is exact. *)
Lemma py_float_floordiv_nonneg (x : Q) (w : Z) :
  0 <= x -> x < inject_Z (2 ^ 53) -> (0 < w)%Z ->
  py_float_floordiv x (inject_Z w) == inject_Z (Qfloor (x / inject_Z w)).
Proof.
  intros Hx Hx2 Hw.
  assert (Hw' : 0 < inject_Z w)
    by (change 0 with (inject_Z 0); rewrite <- Zlt_Qlt; lia).
  assert (Hw1 : 1 <= inject_Z w)
    by (change 1 with (inject_Z 1); rewrite <- Zle_Qle; lia).
  assert (Hxw : 0 <= x / inject_Z w) by (apply Qle_shift_div_l; [done | lra]).
  destruct (py_mod_range x (inject_Z w) Hw') as [R1 R2].
  unfold py_mod in R1, R2.
  set (k := Qfloor (x / inject_Z w)) in *.
  assert (Hk0 : (0 <= k)%Z).
  { change 0%Z with (Qfloor 0). apply Qfloor_resp_le. done. }
  assert (Hwk : (w * k < 2 ^ 53)%Z).
  { rewrite Zlt_Qlt, inject_Z_mult. lra. }
  assert (Hk2 : (k < 2 ^ 53)%Z) by nia.
  unfold py_float_floordiv, c_fmod.
  rewrite py_int_nonneg by done. fold k.
  unfold float_div, float_sub.
  assert (E1 : round_double (x - (x - inject_Z w * inject_Z k)) == inject_Z (w * k)).
  { apply round_double_int; [rewrite inject_Z_mult; ring | lia]. }
  assert (E2 : round_double (round_double (x - (x - inject_Z w * inject_Z k)) / inject_Z w)
               == inject_Z k).
  { apply round_double_int; [| lia]. rewrite E1, inject_Z_mult. field. lra. }
  assert (C : Bool.eqb (Qltb (inject_Z w) 0) (Qltb (x - inject_Z w * inject_Z k) 0) = true).
  { unfold Qltb.
    replace (Qle_bool 0 (inject_Z w)) with true by (symmetry; apply Qle_bool_iff; lra).
    replace (Qle_bool 0 (x - inject_Z w * inject_Z k)) with true
      by (symmetry; apply Qle_bool_iff; lra).
    done. }
  rewrite C. simpl negb. rewrite andb_false_r.
  rewrite (Qeq_bool_comp _ (inject_Z k) 0 0 E2) by done.
  destruct (Qeq_bool (inject_Z k) 0) eqn:Ek.
  { apply Qeq_bool_iff in Ek. rewrite Ek. done. }
  rewrite (Qfloor_comp _ _ E2), Qfloor_Z.
  assert (E3 : round_double
                 (round_double (round_double (x - (x - inject_Z w * inject_Z k)) / inject_Z w)
                  - inject_Z k) = 0).
  { rewrite (round_double_comp _ 0); [done |]. rewrite E2. ring. }
  rewrite E3. done.
Qed.

(** The four numeric fields of one timestamp, for [0 <= t < 2^53]. *)
Lemma fmt_time_fields (t : Q) :
  0 <= t -> t < inject_Z (2 ^ 53) ->
  fmt_time t =
  fmt0w 2 (Qfloor (t / 3600)) ++ lit ":" ++
  fmt0w 2 (Qfloor (py_mod t 3600 / 60)) ++ lit ":" ++
  fmt0w 2 (Qfloor (py_mod t 60)) ++ lit "," ++
  fmt0w 3 (Qfloor (py_mod (float_mul t 1000) 1000)).
Proof.
  intros H0 H1. unfold fmt_time.
  pose proof (py_float_mod_nonneg t 3600 H0 ltac:(done)) as M1.
  destruct (py_mod_range t 3600) as [R1 R2]; [done |].
  pose proof (py_float_floordiv_nonneg t 3600 H0 H1 ltac:(lia)) as F1.
  pose proof (py_float_floordiv_nonneg (py_float_mod t 3600) 60) as F2.
  change (inject_Z 3600) with 3600 in F1. change (inject_Z 60) with 60 in F2.
  rewrite (py_int_comp _ _ F1), py_int_inject.
  rewrite (py_int_comp _ _ (F2 ltac:(lra) ltac:(rewrite M1; change (inject_Z (2 ^ 53)) with 9007199254740992; lra) ltac:(lia))), py_int_inject.
  rewrite (Qfloor_comp (py_float_mod t 3600 / 60) (py_mod t 3600 / 60)) by (rewrite M1; done).
  rewrite (py_int_comp _ _ (py_float_mod_nonneg t 60 H0 ltac:(done))).
  rewrite (py_int_nonneg (py_mod t 60)) by (apply py_mod_range; done).
  pose proof (round_double_nonneg (t * 1000) ltac:(lra)) as P.
  rewrite (py_int_comp _ _ (py_float_mod_nonneg (float_mul t 1000) 1000 P ltac:(done))).
  rewrite (py_int_nonneg (py_mod (float_mul t 1000) 1000)) by (apply py_mod_range; done).
  done.
Qed.

(* ================================================================== *)
(** ** C1: SRT timestamps *)

(** C1 (amended). For every start or end time [t] with [0 <= t < 360000]
    (under 100 hours), the timestamp written by [save_srt_segments] is
    [HH:MM:SS,mmm] with exactly two digits for hours, minutes and seconds
    and three for milliseconds; the fields decompose the whole seconds
    ([3600 h + 60 m + s = floor t]), and the millisecond field is the
    floating-point product [t * 1000] (rounded to binary64) truncated to an
    integer, modulo 1000. For the double nearest to [3725.4] the timestamp
    is [01:02:05,400]. *)
Theorem srt_timestamp_form (t : Q) (Hlo : 0 <= t) (Hhi : t < 360000) :
  (exists h m s ms,
    fmt_time t = two_digits h ++ lit ":" ++ two_digits m ++ lit ":" ++
                 two_digits s ++ lit "," ++ three_digits ms
    /\ (0 <= h < 100)%Z /\ (0 <= m < 60)%Z /\ (0 <= s < 60)%Z
    /\ (0 <= ms < 1000)%Z
    /\ (3600 * h + 60 * m + s = Qfloor t)%Z
    /\ ms = (Qfloor (float_mul t 1000) mod 1000)%Z)
  /\ fmt_time (round_double (37254 # 10)) = lit "01:02:05,400".
Proof.
  split; [| vm_compute; reflexivity].
  rewrite fmt_time_fields
    by (done || (change (inject_Z (2 ^ 53)) with 9007199254740992; lra)).
  set (A := Qfloor (t / 60)).
  set (p := float_mul t 1000).
  exists (Qfloor (t / 3600)), (Qfloor (py_mod t 3600 / 60)),
         (Qfloor (py_mod t 60)), (Qfloor (py_mod p 1000)).
  (* hours *)
  assert (Hh : (0 <= Qfloor (t / 3600) < 100)%Z).
  { apply Qfloor_div_bounds; [lra | lra |]. change (inject_Z 100) with 100. lra. }
  (* minutes *)
  assert (Hm : Qfloor (py_mod t 3600 / 60) = (A - 60 * Qfloor (t / 3600))%Z).
  { subst A. rewrite <- Qfloor_sub_int. apply Qfloor_comp.
    unfold py_mod. rewrite inject_Z_mult. field. }
  assert (Hmb : (0 <= Qfloor (py_mod t 3600 / 60) < 60)%Z).
  { destruct (py_mod_range t 3600) as [R1 R2]; [lra |].
    apply Qfloor_div_bounds; [lra | done |]. change (inject_Z 60) with 60. lra. }
  (* seconds *)
  assert (Hs : Qfloor (py_mod t 60) = (Qfloor t - 60 * A)%Z).
  { subst A. rewrite <- Qfloor_sub_int. apply Qfloor_comp.
    unfold py_mod. rewrite inject_Z_mult. reflexivity. }
  assert (Hsb : (0 <= Qfloor (py_mod t 60) < 60)%Z).
  { destruct (py_mod_range t 60) as [R1 R2]; [lra |].
    apply Qfloor_bounds; [done |]. change (inject_Z 60) with 60. lra. }
  (* milliseconds *)
  assert (Hms : Qfloor (py_mod p 1000) = (Qfloor p - 1000 * Qfloor (p / 1000))%Z).
  { rewrite <- Qfloor_sub_int. apply Qfloor_comp.
    unfold py_mod. rewrite inject_Z_mult. reflexivity. }
  assert (Hmsb : (0 <= Qfloor (py_mod p 1000) < 1000)%Z).
  { destruct (py_mod_range p 1000) as [R1 R2]; [done |].
    apply Qfloor_bounds; [done |]. change (inject_Z 1000) with 1000. lra. }
  rewrite (fmt02_two_digits (Qfloor (t / 3600))) by lia.
  rewrite (fmt02_two_digits (Qfloor (py_mod t 3600 / 60))) by lia.
  rewrite (fmt02_two_digits (Qfloor (py_mod t 60))) by lia.
  rewrite (fmt03_three_digits (Qfloor (py_mod p 1000))) by lia.
  split; [done |]. split; [lia |]. split; [lia |]. split; [lia |]. split; [lia |].
  split; [lia |].
  apply (Z.mod_unique _ _ (Qfloor (p / 1000))); lia.
Qed.

Lemma srt_timestamp_form_witness :
  (0 <= round_double (37254 # 10) /\ round_double (37254 # 10) < 360000) /\
  fmt_time (round_double (37254 # 10)) = lit "01:02:05,400".
Proof.
  split; [split; [apply Qle_bool_iff; vm_compute; reflexivity | vm_compute; reflexivity] |].
  destruct (srt_timestamp_form (round_double (37254 # 10))) as [_ E];
    [apply Qle_bool_iff; vm_compute; reflexivity | vm_compute; reflexivity |].
  exact E.
Defined.

(** C1 (counterexample). At [t = 360000] (100 hours) the hour field has
    three digits: the timestamp is [100:00:00,000], 13 characters, not the
    12-character [HH:MM:SS,mmm] form. And the millisecond field is not the
    truncated fractional-second remainder of [t]: for the double nearest to
    [2.3] (slightly below it) that truncation is [299], while the rounded
    product [t * 1000] is [2300.0] and the code writes [00:00:02,300]. *)
Lemma srt_timestamp_three_digit_hours :
  (fmt_time 360000 = lit "100:00:00,000" /\ length (fmt_time 360000) = 13%nat)
  /\ (round_double (23 # 10) < 23 # 10
      /\ Qfloor (1000 * (round_double (23 # 10) - inject_Z (Qfloor (round_double (23 # 10)))))
         = 299%Z
      /\ float_mul (round_double (23 # 10)) 1000 == 2300
      /\ fmt_time (round_double (23 # 10)) = lit "00:00:02,300").
Proof.
  split; [split; vm_compute; reflexivity |].
  split; [vm_compute; reflexivity |]. split; [vm_compute; reflexivity |].
  split; vm_compute; reflexivity.
Qed.

(* ================================================================== *)
(** ** C7: SRT encoding performs no order check *)

Lemma srt_loop_entry (segs : list seg) (idx : Z) (i : nat) (sg : seg) :
  segs !! i = Some sg ->
  exists pre post, srt_loop idx segs = pre ++ srt_entry (idx + Z.of_nat i) sg ++ post.
Proof.
  revert idx i. induction segs as [| sg' segs IH]; intros idx i Hi; [done |].
  destruct i as [| i]; simpl in Hi.
  - injection Hi as <-. exists [], (srt_loop (idx + 1) segs). simpl.
    rewrite Z.add_0_r. done.
  - destruct (IH (idx + 1)%Z i Hi) as (pre & post & E).
    exists (srt_entry idx sg' ++ pre), post. simpl. rewrite E, <- app_assoc.
    replace (idx + Z.of_nat (S i))%Z with (idx + 1 + Z.of_nat i)%Z by lia.
    done.
Qed.

(** C7 (amended). [save_srt_segments] never checks [end >= start]: for every
    segment list, including segments with [end < start], the [i]-th segment
    is written as its block, index [i + 1], then [start --> end] as given,
    then its text. *)
Theorem save_srt_writes_every_segment (segs : list seg) (i : nat)
    (start end_ : Q) (text : pystr)
    (Hi : segs !! i = Some (start, end_, text)) :
  exists pre post,
    save_srt_segments segs =
    pre ++ fmt_int (Z.of_nat i + 1) ++ nl ++ fmt_time start ++ lit " --> " ++
    fmt_time end_ ++ nl ++ text ++ nl ++ nl ++ post.
Proof.
  destruct (srt_loop_entry segs 1 i _ Hi) as (pre & post & E).
  exists pre, post. unfold save_srt_segments. rewrite E. unfold srt_entry.
  rewrite (Z.add_comm 1), <- !app_assoc. reflexivity.
Qed.

Lemma save_srt_writes_every_segment_witness :
  ([(5, 3, lit "x")] : list seg) !! 0%nat = Some (5, 3, lit "x") /\
  exists pre post,
    save_srt_segments [(5, 3, lit "x")] =
    pre ++ fmt_int 1 ++ nl ++ fmt_time 5 ++ lit " --> " ++
    fmt_time 3 ++ nl ++ lit "x" ++ nl ++ nl ++ post.
Proof.
  split; [reflexivity |].
  exact (save_srt_writes_every_segment [(5, 3, lit "x")] 0 5 3 (lit "x") eq_refl).
Defined.

(** C7 (counterexample). The segment [(5, 3, "x")] has [end < start], and
    encoding it succeeds with the block [1 / 00:00:05,000 --> 00:00:03,000 / x]. *)
Lemma save_srt_accepts_end_before_start :
  (3 < 5)%Q /\
  save_srt_segments [(5, 3, lit "x")] =
  lit "1" ++ nl ++ lit "00:00:05,000 --> 00:00:03,000" ++ nl ++ lit "x" ++ nl ++ nl.
Proof. split; [lra | vm_compute; reflexivity]. Qed.

(* ================================================================== *)
(** ** The engine-call monad *)

Lemma mbind_ret_fst {A B} (m : M A) (g : A -> B) :
  (mbind m (fun x => mret (g x))).1 = m.1.
Proof. destruct m as [log [e | a]]; simpl; [done | by rewrite app_nil_r]. Qed.

Lemma mbind_ret_snd {A B} (m : M A) (g : A -> B) :
  (mbind m (fun x => mret (g x))).2 =
  match m.2 with inl e => inl e | inr a => inr (g a) end.
Proof. destruct m as [log [e | a]]; done. Qed.

Lemma mbind_inl {A B} (log : list call) (e : exc) (f : A -> M B) :
  mbind (log, inl e) f = (log, inl e).
Proof. done. Qed.

Lemma mbind_fst_inr {A B} (log : list call) (a : A) (f : A -> M B) :
  (mbind (log, inr a) f).1 = log ++ (f a).1.
Proof. simpl. destruct (f a). done. Qed.

Lemma mbind_nil_inr {A B} (a : A) (f : A -> M B) : mbind ([], inr a) f = f a.
Proof. simpl. destruct (f a). done. Qed.

Lemma mbind_snd_inr {A B} (log : list call) (a : A) (f : A -> M B) :
  (mbind (log, inr a) f).2 = (f a).2.
Proof. simpl. destruct (f a). done. Qed.

Lemma mmap_cons {A B} (f : A -> M B) (a : A) (l : list A) :
  mmap f (a :: l) = mbind (f a) (fun b => mbind (mmap f l) (fun bs => mret (b :: bs))).
Proof. done. Qed.

(** The engine calls of a sentence loop are the sentences in order, up to the
    first failing one. *)
Lemma mmap_calls_prefix engine (src tgt : string) (l : list pystr) :
  (mmap (call_engine engine src tgt) l).1 `prefix_of` map (fun s => (src, tgt, s)) l.
Proof.
  induction l as [| s l IH]; [done |].
  rewrite mmap_cons. unfold call_engine at 1.
  destruct (engine src tgt s) as [e | b].
  - rewrite mbind_inl. simpl. apply prefix_cons, prefix_nil.
  - rewrite mbind_fst_inr, mbind_ret_fst. simpl. apply prefix_cons. done.
Qed.

Lemma mmap_calls_complete engine (src tgt : string) (l : list pystr) r :
  (mmap (call_engine engine src tgt) l).2 = inr r ->
  (mmap (call_engine engine src tgt) l).1 = map (fun s => (src, tgt, s)) l.
Proof.
  revert r. induction l as [| s l IH]; intros r Hr; [done |].
  rewrite mmap_cons in *. unfold call_engine at 1 in Hr. unfold call_engine at 1.
  destruct (engine src tgt s) as [e | b]; [done |].
  rewrite mbind_snd_inr, mbind_ret_snd in Hr.
  rewrite mbind_fst_inr, mbind_ret_fst. simpl. f_equal.
  destruct ((mmap (call_engine engine src tgt) l).2) as [e | bs] eqn:E; [done |].
  eapply IH. done.
Qed.

(** A successful loop produces one result per element, each the element's
    own successful result. *)
Lemma mmap_forall2 {A B} (f : A -> M B) (l : list A) (r : list B) :
  (mmap f l).2 = inr r -> Forall2 (fun a b => (f a).2 = inr b) l r.
Proof.
  revert r. induction l as [| a l IH]; intros r Hr.
  - simpl in Hr. injection Hr as <-. constructor.
  - rewrite mmap_cons in Hr. destruct (f a) as [log [e | b]] eqn:Ef; [done |].
    rewrite mbind_snd_inr, mbind_ret_snd in Hr.
    destruct ((mmap f l).2) as [e | bs] eqn:E; [done |].
    injection Hr as <-. constructor; [by rewrite Ef | by apply IH].
Qed.

Lemma prefix_map {A B} (f : A -> B) (l1 l2 : list A) :
  l1 `prefix_of` l2 -> map f l1 `prefix_of` map f l2.
Proof. intros [k ->]. exists (map f k). apply map_app. Qed.

Lemma py_slice_to_nonneg {A} (n : Z) (xs : list A) :
  (0 <= n)%Z -> py_slice_to n xs = take (Z.to_nat n) xs.
Proof. intros H. unfold py_slice_to. destruct (Z.leb_spec 0 n); [done | lia]. Qed.

(* ================================================================== *)
(** ** C4: short texts are not translated *)

(** C4. When the text, stripped of surrounding whitespace, has fewer than 3
    characters (the empty text included), [translate_segment] returns [""]
    without raising and without calling the engine (nor the splitter, whose
    failures are the only other source of exceptions before the engine). *)
Theorem translate_segment_short_text split_sentences engine
    (max_line_length max_lines : Z) (src tgt : string) (text : pystr)
    (Hshort : (length (py_strip text) < 3)%nat) :
  translate_segment split_sentences engine max_line_length max_lines src tgt text
  = ([], inr []).
Proof.
  unfold translate_segment.
  assert (E : (length (py_strip text) <? 3)%nat = true) by (apply Nat.ltb_lt; done).
  rewrite E, orb_true_r. done.
Qed.

Lemma translate_segment_short_text_witness :
  (length (py_strip (lit " a ")) < 3)%nat /\
  translate_segment split_whole engine_echo 40 2 "fra_Latn" "eng_Latn" (lit " a ")
  = ([], inr []).
Proof.
  split; [vm_compute; lia |].
  apply translate_segment_short_text. vm_compute. lia.
Defined.

(* ================================================================== *)
(** ** C2: truncation and line cap *)

(** C2. For a text that passes the short-text check and a sentence list
    [sentences] returned by the splitter, with non-negative limits: the
    sentences sent to the engine, in order, are those of the retained list,
    where the retained list is every sentence truncated to its first
    [max_line_length] characters and then capped to [max_lines] entries when
    [len(text) > max_line_length], and only capped otherwise (all of it is
    sent when every engine call succeeds, a prefix up to the failing call
    otherwise). With [max_line_length = 40], [max_lines = 2] and a
    50-character text, the retained list has at most 2 sentences of at most
    40 characters each. *)
Theorem translate_segment_limits split_sentences engine
    (max_line_length max_lines : Z) (src tgt : string) (text : pystr)
    (sentences : list pystr)
    (Hmll : (0 <= max_line_length)%Z) (Hml : (0 <= max_lines)%Z)
    (Hpass : (3 <= length (py_strip text))%nat)
    (Hsplit : split_sentences text = inr sentences) :
  let retained :=
    if (Z.of_nat (length text) >? max_line_length)%Z
    then take (Z.to_nat max_lines) (map (take (Z.to_nat max_line_length)) sentences)
    else take (Z.to_nat max_lines) sentences in
  let run := translate_segment split_sentences engine max_line_length max_lines
               src tgt text in
  map (fun c : call => c.2) run.1 `prefix_of` retained
  /\ (forall r, run.2 = inr r -> map (fun c : call => c.2) run.1 = retained)
  /\ (max_line_length = 40%Z -> max_lines = 2%Z -> length text = 50%nat ->
      (length retained <= 2)%nat /\ Forall (fun s => (length s <= 40)%nat) retained).
Proof.
  intros retained run.
  assert (Hlim : limit_sentences max_line_length max_lines text sentences = retained).
  { unfold limit_sentences, retained. rewrite Z.gtb_ltb.
    destruct (max_line_length <? Z.of_nat (length text))%Z;
      rewrite py_slice_to_nonneg by done; [| done].
    f_equal. apply map_ext. intros s. apply py_slice_to_nonneg. done. }
  assert (Hrun : run = mbind (mmap (call_engine engine src tgt) retained)
                         (fun t => mret (py_join (lit " ") t))).
  { subst run. unfold translate_segment.
    destruct text as [| c text']; [simpl in Hpass; lia |].
    assert (E : (length (py_strip (c :: text')) <? 3)%nat = false)
      by (apply Nat.ltb_ge; done).
    rewrite E. simpl orb. cbv iota. unfold mlift. rewrite Hsplit, <- Hlim.
    rewrite mbind_nil_inr. reflexivity. }
  assert (Hmap : forall l : list pystr, map (fun c : call => c.2) (map (fun s => (src, tgt, s)) l) = l).
  { intros l. rewrite map_map. simpl. apply map_id. }
  split; [| split].
  - rewrite Hrun, mbind_ret_fst.
    pose proof (prefix_map (fun c : call => c.2) _ _
                  (mmap_calls_prefix engine src tgt retained)) as P.
    rewrite Hmap in P. exact P.
  - intros r Hr. rewrite Hrun, mbind_ret_snd in Hr. rewrite Hrun, mbind_ret_fst.
    destruct ((mmap (call_engine engine src tgt) retained).2) as [e | ts] eqn:E; [done |].
    rewrite (mmap_calls_complete _ _ _ _ _ E). apply Hmap.
  - intros -> -> Hlen. subst retained. rewrite Hlen. simpl. split.
    + rewrite length_take. lia.
    + apply Forall_take, Forall_map, Forall_forall. intros s _.
      rewrite length_take. lia.
Qed.

Lemma translate_segment_limits_witness :
  (0 <= 40)%Z /\ (0 <= 2)%Z /\ length ex_text = 50%nat /\ length ex_sentences = 3%nat /\
  (3 <= length (py_strip ex_text))%nat /\ ex_split ex_text = inr ex_sentences /\
  let retained := take 2 (map (take 40) ex_sentences) in
  (length retained <= 2)%nat /\ Forall (fun s => (length s <= 40)%nat) retained.
Proof.
  split; [lia |]. split; [lia |]. split; [reflexivity |]. split; [reflexivity |].
  split; [vm_compute; lia |]. split; [reflexivity |].
  destruct (translate_segment_limits ex_split engine_echo 40 2 "eng_Latn" "fra_Latn"
              ex_text ex_sentences) as (_ & _ & H3);
    [lia | lia | vm_compute; lia | reflexivity |].
  exact (H3 eq_refl eq_refl eq_refl).
Defined.

(* ================================================================== *)
(** ** C5: the translated transcript keeps segment order and times *)

(** C5. When [translate] completes, its translated segment list has as many
    segments as the input, in the same order; the [i]-th output segment has
    the [start] and [end] of the [i]-th input segment, only the text
    differs. *)
Theorem translate_keeps_times split_sentences engine
    (max_line_length max_lines : Z) (language_code_map : gmap string string)
    load_models write_text
    (segs : list seg) (source_lang target_lang output_srt output_txt : string)
    (out : list seg) (srt txt : pystr)
    (Hok : (translate split_sentences engine max_line_length max_lines
              language_code_map load_models write_text segs source_lang target_lang
              output_srt output_txt).2
           = inr (out, srt, txt)) :
  length out = length segs /\
  forall (i : nat) (start end_ : Q) (text : pystr),
    segs !! i = Some (start, end_, text) ->
    exists text', out !! i = Some (start, end_, text').
Proof.
  unfold translate, mlift in Hok.
  destruct load_models as [e | []]; [done |]. rewrite mbind_nil_inr in Hok.
  destruct (translate_loop _ _ _ _ _ _ segs) as [lg [e | ts]] eqn:El; [done |].
  rewrite mbind_snd_inr in Hok.
  destruct (write_text output_srt _) as [e | []]; [done |]. rewrite mbind_nil_inr in Hok.
  destruct (write_text output_txt _) as [e | []]; [done |]. rewrite mbind_nil_inr in Hok.
  injection Hok as <- _ _.
  assert (E : (translate_loop split_sentences engine max_line_length max_lines
                 (map_source_lang language_code_map source_lang) target_lang segs).2
              = inr ts) by (rewrite El; done).
  apply mmap_forall2 in E.
  split; [symmetry; by eapply Forall2_length |].
  intros i start end_ text Hi.
  destruct (Forall2_lookup_l _ _ _ i _ E Hi) as (b & Hb & Hrel).
  rewrite mbind_ret_snd in Hrel.
  destruct ((translate_segment _ _ _ _ _ _ text).2) as [e | t'] eqn:Et; [done |].
  injection Hrel as <-. eauto.
Qed.

Lemma translate_keeps_times_witness :
  (translate split_whole engine_fr_en 40 2 ∅ load_ok write_ok
     [(0, 1, lit "Bonjour."); (2, 3, lit "Merci.")] "fra_Latn" "eng_Latn"
     "out/t.srt" "out/t.txt").2
  = inr ([(0, 1, lit "Hello."); (2, 3, lit "Thank you.")],
         save_srt_segments [(0, 1, lit "Hello."); (2, 3, lit "Thank you.")],
         save_txt_segments [(0, 1, lit "Hello."); (2, 3, lit "Thank you.")]) /\
  length ([(0, 1, lit "Hello."); (2, 3, lit "Thank you.")] : list seg)
    = length ([(0, 1, lit "Bonjour."); (2, 3, lit "Merci.")] : list seg) /\
  forall (i : nat) (start end_ : Q) (text : pystr),
    ([(0, 1, lit "Bonjour."); (2, 3, lit "Merci.")] : list seg) !! i
      = Some (start, end_, text) ->
    exists text', ([(0, 1, lit "Hello."); (2, 3, lit "Thank you.")] : list seg) !! i
                  = Some (start, end_, text').
Proof.
  assert (H : (translate split_whole engine_fr_en 40 2 ∅ load_ok write_ok
     [(0, 1, lit "Bonjour."); (2, 3, lit "Merci.")] "fra_Latn" "eng_Latn"
     "out/t.srt" "out/t.txt").2
  = inr ([(0, 1, lit "Hello."); (2, 3, lit "Thank you.")],
         save_srt_segments [(0, 1, lit "Hello."); (2, 3, lit "Thank you.")],
         save_txt_segments [(0, 1, lit "Hello."); (2, 3, lit "Thank you.")]))
    by (vm_compute; reflexivity).
  split; [exact H |].
  exact (translate_keeps_times _ _ _ _ _ _ _ _ _ _ _ _ _ _ _ H).
Defined.

(* ================================================================== *)
(** ** C6: source language of the translation *)

Lemma mmap_log_forall {A B} (P : call -> Prop) (f : A -> M B) (l : list A) :
  (forall a, Forall P (f a).1) -> Forall P (mmap f l).1.
Proof.
  intros Hf. induction l as [| a l IH]; [constructor |].
  rewrite mmap_cons. specialize (Hf a).
  destruct (f a) as [log [e | b]]; [done |].
  rewrite mbind_fst_inr, mbind_ret_fst. simpl in Hf. apply Forall_app; done.
Qed.

Lemma translate_segment_calls split_sentences engine
    (max_line_length max_lines : Z) (src tgt : string) (text : pystr) :
  Forall (fun c : call => c.1.1 = src /\ c.1.2 = tgt)
    (translate_segment split_sentences engine max_line_length max_lines src tgt text).1.
Proof.
  unfold translate_segment.
  destruct (_ || _); [constructor |].
  unfold mlift. destruct (split_sentences text) as [e | ss]; [constructor |].
  rewrite mbind_nil_inr, mbind_ret_fst.
  apply mmap_log_forall. intros s. unfold call_engine. simpl. auto.
Qed.

(** C6 (amended). The source code is looked up in the language-code table; a
    code with no entry is passed through unchanged, and [eng_Latn] is used
    only when the result is the empty string (an entry mapping to [""], or
    the empty code without entry). Every engine call of [translate] uses that
    code as source language and [target_lang] as target. *)
Theorem translate_source_lang split_sentences engine
    (max_line_length max_lines : Z) (language_code_map : gmap string string)
    load_models write_text
    (segs : list seg) (source_lang target_lang output_srt output_txt : string) :
  (language_code_map !! source_lang = None -> source_lang <> "" ->
     map_source_lang language_code_map source_lang = source_lang)
  /\ (language_code_map !! source_lang = None -> source_lang = "" ->
     map_source_lang language_code_map source_lang = "eng_Latn")
  /\ (forall v, language_code_map !! source_lang = Some v -> v <> "" ->
     map_source_lang language_code_map source_lang = v)
  /\ (language_code_map !! source_lang = Some "" ->
     map_source_lang language_code_map source_lang = "eng_Latn")
  /\ Forall (fun c : call => c.1.1 = map_source_lang language_code_map source_lang
                           /\ c.1.2 = target_lang)
       (translate split_sentences engine max_line_length max_lines
          language_code_map load_models write_text segs source_lang target_lang
          output_srt output_txt).1.
Proof.
  unfold map_source_lang. split; [| split; [| split; [| split]]].
  - intros -> Hne. destruct (String.eqb_spec source_lang ""); done.
  - intros -> ->. done.
  - intros v -> Hne. destruct (String.eqb_spec v ""); done.
  - intros ->. done.
  - assert (HL : Forall (fun c : call => c.1.1 = map_source_lang language_code_map source_lang
                                          /\ c.1.2 = target_lang)
              (translate_loop split_sentences engine max_line_length max_lines
                 (map_source_lang language_code_map source_lang) target_lang segs).1).
    { unfold translate_loop. apply mmap_log_forall. intros [[start end_] text].
      rewrite mbind_ret_fst. apply translate_segment_calls. }
    unfold translate, mlift.
    destruct load_models as [e | []]; [constructor |]. rewrite mbind_nil_inr.
    destruct (translate_loop _ _ _ _ _ _ segs) as [lg [e | ts]]; [done |].
    rewrite mbind_fst_inr. simpl in HL.
    destruct (write_text output_srt _) as [e | []]; [by rewrite app_nil_r |].
    rewrite mbind_nil_inr.
    destruct (write_text output_txt _) as [e | []]; by rewrite app_nil_r.
Qed.

(** C6 (counterexample). With an empty table, the code [fra] has no entry
    and is not replaced by [eng_Latn]: the engine is called with [fra]. *)
Lemma translate_unmapped_code_passes_through :
  (∅ : gmap string string) !! "fra" = None /\
  map_source_lang ∅ "fra" = "fra" /\
  (translate split_whole engine_echo 40 2 ∅ load_ok write_ok [(0, 1, lit "Bonjour.")]
     "fra" "eng_Latn" "out/t.srt" "out/t.txt").1
  = [("fra", "eng_Latn", lit "Bonjour.")].
Proof. split; [done | split; vm_compute; reflexivity]. Qed.

(* ================================================================== *)
(** ** C3 and C8: the JSON transcript *)

Lemma dict_get_transcript (segments lang : json) :
  dict_get [(lit "segments", segments); (lit "lang", lang)] (lit "segments") = Some segments
  /\ dict_get [(lit "segments", segments); (lit "lang", lang)] (lit "lang") = Some lang.
Proof.
  unfold dict_get. simpl.
  split; repeat case_bool_decide; done.
Qed.

Lemma seg_of_to_json (segs : list seg) :
  map seg_of_json (map seg_to_json segs) = map Some segs.
Proof. induction segs as [| [[s e] t] segs IH]; simpl; [done | by rewrite IH]. Qed.

(** C3. Loading the JSON value written by [save_json_segments] returns the
    language tag unchanged and, segment by segment, the same
    [start], [end] and [text] (each segment comes back as a JSON array
    [[start, end, text]]). The JSON text layer ([json.dump] / [json.load])
    is not modelled. *)
Theorem json_roundtrip (segs : list seg) (lang : pystr) :
  exists jsegs,
    load_segments (save_json_segments segs lang) = inr (JArr jsegs, JStr lang)
    /\ map seg_of_json jsegs = map Some segs.
Proof.
  exists (map seg_to_json segs). split; [| apply seg_of_to_json].
  unfold load_segments, save_json_segments.
  destruct (dict_get_transcript (JArr (map seg_to_json segs)) (JStr lang)) as [-> ->].
  done.
Qed.

(** C8 (amended). [load_segments] raises [KeyError] when the object lacks
    [segments] or [lang] and [TypeError] when the loaded value is not an
    object; it checks no types: whenever both keys are present it returns
    their values as they are, whatever they are. *)
Theorem load_segments_spec (data : json) :
  (forall segments lang,
     load_segments data = inr (segments, lang) <->
     exists kvs, data = JObj kvs /\ dict_get kvs (lit "segments") = Some segments
                 /\ dict_get kvs (lit "lang") = Some lang)
  /\ ((forall kvs, data <> JObj kvs) -> load_segments data = inl TypeError)
  /\ (forall kvs, data = JObj kvs ->
        dict_get kvs (lit "segments") = None \/ dict_get kvs (lit "lang") = None ->
        load_segments data = inl KeyError).
Proof.
  split; [| split].
  - intros segments lang. split.
    + destruct data as [| | | | | kvs]; simpl; try discriminate.
      destruct (dict_get kvs (lit "segments")) as [s |] eqn:Es; [| discriminate].
      destruct (dict_get kvs (lit "lang")) as [l |] eqn:El; [| discriminate].
      intros [= -> ->]. eauto.
    + intros (kvs & -> & Es & El). simpl. rewrite Es, El. done.
  - intros Hn. destruct data as [| | | | | kvs]; try done. exfalso. by apply (Hn kvs).
  - intros kvs -> [E | E]; simpl; rewrite E; [done |].
    destruct (dict_get kvs (lit "segments")); done.
Qed.

(** C8 (counterexample). [{"segments": 5, "lang": 7}] has neither an array
    of triples nor a string, and loading it succeeds. *)
Lemma load_segments_no_type_check :
  load_segments (JObj [(lit "segments", JNum 5); (lit "lang", JNum 7)])
  = inr (JNum 5, JNum 7).
Proof. vm_compute. reflexivity. Qed.

(* ================================================================== *)
(** ** C9 and C10: the orchestrator *)

Section PipelineFacts.

Variable World : Type.
Variable path_exists : World -> string -> bool.
Variable resolve : string -> string.
Variable video_dir_entries : World -> list string.
Variable makedirs_audio : World -> exc + World.
Variable step_extract_audio : string -> World -> exc + World.
Variable step_transcribe step_translate : World -> exc + World.
Variable add_soft_subs add_burned_subs : string -> World -> exc + World.
Variable config_mode : option string.

Local Abbreviation run_stages' :=
  (run_stages World step_extract_audio step_transcribe step_translate
     add_soft_subs add_burned_subs).
Local Abbreviation run_step' :=
  (run_step World step_extract_audio step_transcribe step_translate
     add_soft_subs add_burned_subs).
Local Abbreviation run_pipeline' :=
  (run_pipeline World path_exists resolve video_dir_entries makedirs_audio
     step_extract_audio step_transcribe step_translate add_soft_subs
     add_burned_subs config_mode).
Local Abbreviation select_video_file' :=
  (select_video_file World path_exists resolve video_dir_entries).

(** The stages run over any ordered list: the requested ones, in list
    order, until the first that raises; its exception is the outcome. *)
Lemma run_stages_spec (steps : list string) (video_file mode : string)
    (l : list stage) (w : World) :
  let r := run_stages' steps video_file mode l w in
  (r.1 = List.filter (requested steps) l /\ exists w', r.2 = inr w')
  \/ (exists pre s post e ws,
        List.filter (requested steps) l = pre ++ s :: post /\
        r.1 = pre ++ [s] /\ r.2 = inl e /\ run_step' video_file mode s ws = inl e).
Proof.
  revert w. induction l as [| s l IH]; intros w; simpl.
  - left. eauto.
  - destruct (requested steps s) eqn:Hs; [| apply IH].
    destruct (run_step' video_file mode s w) as [e | w'] eqn:Ew.
    + right. exists [], s, (List.filter (requested steps) l), e, w. done.
    + specialize (IH w').
      destruct (run_stages' steps video_file mode l w') as [tr r] eqn:Er.
      simpl in *. destruct IH as [[-> Hok] | (pre & s' & post & e & ws & Hf & Htr & Hr & He)].
      * left. done.
      * right. exists (s :: pre), s', post, e, ws. rewrite Hf, Htr. done.
Qed.

(** C9 (amended). Once input-video resolution and the creation of the audio
    directory have succeeded, [run_pipeline] enters exactly the requested
    stages, in the order Extract, Transcribe, Translate, Subtitles, whatever
    the order of [steps]; either all of them complete, or the first one that
    raises ends the run: no later stage is entered and its exception is the
    outcome of [run_pipeline]. *)
Theorem run_pipeline_stage_order (steps : list string)
    (mode video_arg : option string) (w : World) (video_file : string) (w1 : World)
    (Hsel : select_video_file' w video_arg = inr video_file)
    (Hdir : makedirs_audio w = inr w1) :
  let req := List.filter (requested steps) stage_order in
  let r := run_pipeline' steps mode video_arg w in
  (r.1 = req /\ exists w', r.2 = inr w')
  \/ (exists pre s post e ws,
        req = pre ++ s :: post /\ r.1 = pre ++ [s] /\ r.2 = inl e /\
        run_step' video_file (final_mode config_mode mode) s ws = inl e).
Proof.
  intros req r. subst r. unfold run_pipeline. rewrite Hsel, Hdir.
  apply run_stages_spec.
Qed.

(** C10. Input-video resolution comes first: when an explicit (non-empty)
    path is given and does not exist, or none is given and the video
    directory has no [*.mp4] entry, [run_pipeline] raises
    [FileNotFoundError] before any stage, whatever stages are requested. *)
Theorem run_pipeline_no_video (steps : list string) (mode video_arg : option string)
    (w : World)
    (Hnone : (exists a, video_arg = Some a /\ a <> "" /\ path_exists w (resolve a) = false)
             \/ (py_truthy video_arg = false
                 /\ List.filter is_mp4 (video_dir_entries w) = [])) :
  run_pipeline' steps mode video_arg w = ([], inl FileNotFoundError).
Proof.
  unfold run_pipeline, select_video_file.
  destruct Hnone as [(a & -> & Hne & Hex) | [Ht Hf]].
  - simpl. destruct (String.eqb_spec a ""); [done |]. simpl. rewrite Hex. done.
  - destruct video_arg as [a |]; [rewrite Ht |]; rewrite Hf; done.
Qed.

End PipelineFacts.

Lemma run_pipeline_stage_order_witness :
  select_video_file unit (fun _ p => String.eqb p "in.mp4") id (fun _ => [])
    tt (Some "in.mp4") = inr "in.mp4" /\
  run_pipeline unit (fun _ p => String.eqb p "in.mp4") id (fun _ => []) (fun w => inr w)
    (fun _ w => inr w) (fun _ => inl OSError) (fun w => inr w)
    (fun _ w => inr w) (fun _ w => inr w) None
    ["subtitles"; "transcribe"; "extract"; "translate"] None (Some "in.mp4") tt
  = ([Extract; Transcribe], inl OSError).
Proof.
  split; [reflexivity |].
  destruct (run_pipeline_stage_order unit (fun _ p => String.eqb p "in.mp4") id
              (fun _ => []) (fun w => inr w) (fun _ w => inr w) (fun _ => inl OSError)
              (fun w => inr w) (fun _ w => inr w) (fun _ w => inr w) None
              ["subtitles"; "transcribe"; "extract"; "translate"] None (Some "in.mp4")
              tt "in.mp4" tt eq_refl eq_refl) as [[_ [w' Hw]] | (pre & s & post & e & ws & _ & Htr & He & _)].
  - vm_compute in Hw. discriminate.
  - vm_compute in Htr. vm_compute in He. vm_compute. reflexivity.
Defined.

Lemma run_pipeline_no_video_witness :
  run_pipeline unit (fun _ _ => false) id (fun _ => ["notes.txt"]) (fun w => inr w)
    (fun _ w => inr w) (fun w => inr w) (fun w => inr w)
    (fun _ w => inr w) (fun _ w => inr w) None ["translate"] None None tt
  = ([], inl FileNotFoundError).
Proof.
  apply run_pipeline_no_video. right. split; [reflexivity | vm_compute; reflexivity].
Defined.

(** C9 (counterexample). Only [translate] is requested, no video path is
    given and the video directory holds no MP4 file: the run raises
    [FileNotFoundError] and the requested stage does not run. *)
Lemma run_pipeline_requested_stage_skipped :
  List.filter (requested ["translate"]) stage_order = [TranslateStage] /\
  run_pipeline unit (fun _ _ => false) id (fun _ => []) (fun w => inr w)
    (fun _ w => inr w) (fun w => inr w) (fun w => inr w)
    (fun _ w => inr w) (fun _ w => inr w) None ["translate"] None None tt
  = ([], inl FileNotFoundError).
Proof. split; vm_compute; reflexivity. Qed.

(* ================================================================== *)
(** ** Further properties of the code *)

(** *** [str.strip] and the regex sentence splitter *)

Lemma lstrip_no_lead (s : pystr) : no_lead_space s -> py_lstrip s = s.
Proof. destruct s as [| c s]; simpl; [done |]. intros ->. done. Qed.

Lemma lstrip_no_lead_space (s : pystr) : no_lead_space (py_lstrip s).
Proof. induction s as [| c s IH]; simpl; [done |]. destruct (py_isspace c) eqn:E; [done | exact E]. Qed.

Lemma lstrip_idem (s : pystr) : py_lstrip (py_lstrip s) = py_lstrip s.
Proof. apply lstrip_no_lead, lstrip_no_lead_space. Qed.

Lemma lstrip_suffix (s : pystr) : exists p, s = p ++ py_lstrip s.
Proof.
  induction s as [| c s [p Hp]]; simpl; [by exists [] |].
  destruct (py_isspace c); [exists (c :: p); simpl; congruence | by exists []].
Qed.

Lemma lstrip_app (a b : pystr) :
  py_lstrip (a ++ b) = match py_lstrip a with [] => py_lstrip b | _ => py_lstrip a ++ b end.
Proof.
  induction a as [| c a IH]; simpl; [done |]. destruct (py_isspace c); [done | done].
Qed.

Lemma no_lead_space_app (a b : pystr) :
  a <> [] -> no_lead_space (a ++ b) -> no_lead_space a.
Proof. destruct a; [done | done]. Qed.

(** [str.strip] is idempotent. *)
Lemma py_strip_idem (s : pystr) : py_strip (py_strip s) = py_strip s.
Proof.
  unfold py_strip. set (t := py_lstrip s). set (u := py_lstrip (rev t)).
  assert (Hu : py_lstrip (rev u) = rev u).
  { apply lstrip_no_lead. destruct (lstrip_suffix (rev t)) as [p Hp].
    fold u in Hp. destruct u as [| c u'] eqn:Eu; [done |].
    apply (no_lead_space_app _ (rev p)); [simpl; destruct (rev u'); done |].
    rewrite <- rev_app_distr, <- Hp, rev_involutive. apply lstrip_no_lead_space. }
  rewrite Hu, rev_involutive. unfold u. rewrite lstrip_idem. done.
Qed.

Lemma upper_not_space (c : N) : is_upper_ascii c = true -> py_isspace c = false.
Proof.
  unfold is_upper_ascii, py_isspace. intros H.
  apply andb_prop in H as [H1 H2]. apply N.leb_le in H1. apply N.leb_le in H2.
  apply not_true_iff_false. intros Hs.
  repeat (rewrite orb_true_iff in Hs || rewrite andb_true_iff in Hs).
  rewrite ?N.leb_le, ?N.eqb_eq in Hs. lia.
Qed.

Lemma terminal_not_space (c : N) : is_terminal c = true -> py_isspace c = false.
Proof.
  unfold is_terminal. intros H.
  repeat (apply orb_prop in H as [H | H]); apply N.eqb_eq in H; subst; reflexivity.
Qed.

Lemma lstrip_snoc (p : pystr) (c : N) :
  py_isspace c = false -> exists r, py_lstrip (p ++ [c]) = r ++ [c].
Proof.
  intros Hc. rewrite lstrip_app. destruct (py_lstrip p) as [| x r].
  - exists []. simpl. rewrite Hc. done.
  - by exists (x :: r).
Qed.

Lemma strip_ends_terminal (p : pystr) : ends_terminal p -> ends_terminal (py_strip p).
Proof.
  unfold ends_terminal. destruct (last p) as [c |] eqn:Hl; [intros Hc | done].
  apply last_Some in Hl as [p' ->].
  destruct (lstrip_snoc p' c (terminal_not_space c Hc)) as [r Hr].
  unfold py_strip. rewrite Hr.
  rewrite (lstrip_no_lead (rev (r ++ [c])))
    by (rewrite rev_app_distr; simpl; apply terminal_not_space, Hc).
  rewrite rev_involutive, last_snoc. done.
Qed.

Lemma strip_starts_upper (p : pystr) : starts_upper p -> starts_upper (py_strip p).
Proof.
  destruct p as [| c p']; [done |]. simpl. intros Hc.
  unfold py_strip. rewrite (lstrip_no_lead (c :: p')) by (simpl; apply upper_not_space, Hc).
  simpl. destruct (lstrip_snoc (rev p') c (upper_not_space c Hc)) as [r Hr].
  rewrite Hr, rev_app_distr. done.
Qed.

Section RegexSplitFacts.

Variable is_word : N -> bool.
Local Abbreviation boundary := (regex_boundary is_word).
Local Abbreviation go := (re_split_go is_word).

Lemma boundary_parts (text : pystr) (i : nat) :
  boundary text i = true ->
  char_at text i py_isspace = true /\ char_at text (S i) is_upper_ascii = true
  /\ (1 <= i)%nat /\ char_at text (i - 1)%nat is_terminal = true.
Proof.
  unfold regex_boundary. intros H.
  repeat match goal with Hx : (_ && _) = true |- _ => apply andb_prop in Hx as [? ?] end.
  repeat split; try assumption. apply Nat.leb_le. assumption.
Qed.

Lemma char_at_some (text : pystr) (j : nat) (p : N -> bool) :
  char_at text j p = true -> exists c, text !! j = Some c /\ p c = true.
Proof. unfold char_at. destruct (text !! j); [eauto | done]. Qed.

Lemma re_split_go_head (text rest : pystr) (i : nat) (cur : pystr) :
  exists p ps, go text rest i cur = (cur ++ p) :: ps.
Proof.
  revert i cur. induction rest as [| c rest IH]; intros i cur; simpl.
  - exists [], []. rewrite app_nil_r. done.
  - destruct (boundary text i).
    + exists []. rewrite app_nil_r. eauto.
    + destruct (IH (S i) (cur ++ [c])) as (p & ps & ->).
      exists (c :: p), ps. rewrite <- app_assoc. done.
Qed.

Lemma drop_cons_lookup (text rest : pystr) (i : nat) (c : N) :
  drop i text = c :: rest -> text !! i = Some c /\ drop (S i) text = rest.
Proof.
  intros H. split.
  - pose proof (lookup_drop text i 0) as E. rewrite H, Nat.add_0_r in E. done.
  - rewrite <- Nat.add_1_r, <- drop_drop, H. done.
Qed.

Lemma re_split_go_shape (text rest : pystr) (i : nat) (cur : pystr) :
  drop i text = rest ->
  (cur <> [] -> last cur = text !! (i - 1)%nat) ->
  (cur = [] -> i = 0%nat \/ boundary text (i - 1)%nat = true) ->
  Forall ends_terminal (removelast (go text rest i cur))
  /\ Forall starts_upper (tl (go text rest i cur)).
Proof.
  revert i cur. induction rest as [| c rest IH]; intros i cur Hd Hlast Hempty; simpl.
  - done.
  - destruct (drop_cons_lookup _ _ _ _ Hd) as [Hi Hd'].
    destruct (boundary text i) eqn:Hb.
    + destruct (boundary_parts _ _ Hb) as (Hsp & Hup & H1 & Hterm).
      assert (Hb0 : boundary text (S i - 1)%nat = true)
        by (rewrite Nat.sub_succ, Nat.sub_0_r; exact Hb).
      destruct (IH (S i) [] Hd' (fun H => ltac:(done)) (fun _ => or_intror Hb0))
        as [IHl IHt].
      destruct (re_split_go_head text rest (S i) []) as (p & ps & Hg).
      rewrite Hg in IHl, IHt |- *. simpl.
      assert (Hcur : cur <> []).
      { intros ->. destruct (Hempty eq_refl) as [-> | Hb']; [lia |].
        destruct (boundary_parts _ _ Hb') as (_ & Hup' & _).
        replace (S (i - 1))%nat with i in Hup' by lia.
        apply char_at_some in Hup' as (x & Hx & Hux).
        apply char_at_some in Hsp as (y & Hy & Hsy).
        rewrite Hx in Hy. injection Hy as <-. rewrite (upper_not_space x Hux) in Hsy. done. }
      split.
      * constructor; [| done].
        unfold ends_terminal. rewrite (Hlast Hcur).
        apply char_at_some in Hterm as (x & -> & ?). done.
      * constructor; [| done].
        apply char_at_some in Hup as (x & Hx & Hux).
        destruct rest as [| y rest'].
        {
          pose proof (lookup_drop text (S i) 0) as E.
          rewrite Hd' in E. replace (S i + 0)%nat with (S i) in E by lia.
          unfold pystr in Hx. rewrite Hx in E. done. }
        simpl in Hg. destruct (drop_cons_lookup _ _ _ _ Hd') as [Hy _].
        rewrite Hx in Hy. injection Hy as <-.
        assert (Hnb : boundary text (S i) = false).
        { destruct (boundary text (S i)) eqn:E; [| done].
          destruct (boundary_parts _ _ E) as (Hs & _).
          unfold char_at in Hs. rewrite Hx, (upper_not_space x Hux) in Hs. done. }
        rewrite Hnb in Hg.
        destruct (re_split_go_head text rest' (S (S i)) [x]) as (p' & ps' & Hg').
        rewrite Hg' in Hg. injection Hg as <- <-. simpl. done.
    + apply IH; [done | |].
      * intros _. rewrite last_snoc. simpl. rewrite Nat.sub_0_r. done.
      * intros H. destruct cur; done.
Qed.

Lemma regex_split_shape (text : pystr) :
  Forall ends_terminal (removelast (regex_split is_word text))
  /\ Forall starts_upper (tl (regex_split is_word text)).
Proof. apply re_split_go_shape; [done | done | intros; left; done]. Qed.

Lemma re_split_go_nocut (text rest : pystr) (i : nat) (cur : pystr) :
  (forall j, boundary text j = false) -> go text rest i cur = [cur ++ rest].
Proof.
  intros Hnb. revert i cur. induction rest as [| c rest IH]; intros i cur; simpl.
  - rewrite app_nil_r. done.
  - rewrite Hnb, IH, <- app_assoc. done.
Qed.

End RegexSplitFacts.

Lemma removelast_map {A B} (f : A -> B) (l : list A) :
  removelast (map f l) = map f (removelast l).
Proof.
  induction l as [| x l IH]; [done |]. simpl. rewrite IH.
  destruct l; done.
Qed.

Lemma in_tl_filter {A} (g : A -> bool) (l : list A) (y : A) :
  In y (tl (List.filter g l)) -> In y (tl l).
Proof.
  destruct l as [| x l]; [done |]. simpl. destruct (g x); simpl.
  - intros H. apply filter_In in H. apply H.
  - destruct (List.filter g l) as [| z f] eqn:E; simpl; [done |].
    intros H. assert (Hz : In y (List.filter g l)) by (rewrite E; right; done).
    apply filter_In in Hz. apply Hz.
Qed.

Lemma in_removelast_filter {A} (g : A -> bool) (l : list A) (y : A) :
  In y (removelast (List.filter g l)) -> In y (removelast l).
Proof.
  induction l as [| x l IH]; [done |]. simpl.
  assert (Hne : In y (removelast l) -> In y (removelast (x :: l))).
  { intros H. destruct l; [done |]. right. done. }
  destruct (g x).
  - simpl. destruct (List.filter g l) as [| z f] eqn:E; [done |].
    intros [-> | H].
    + destruct l as [| x' l]; [done |]. left. done.
    + apply Hne, IH, H.
  - intros H. apply Hne, IH, H.
Qed.

(** The regex splitter (the [use_regex_splitter] branch of
    [split_sentences]) returns non-empty sentences with no leading or
    trailing whitespace. *)
Theorem split_sentences_regex_clean (is_word : N -> bool) (text : pystr) :
  Forall (fun s => s <> [] /\ py_strip s = s) (split_sentences_regex is_word text).
Proof.
  unfold split_sentences_regex. apply Forall_map, Forall_forall.
  intros s Hs. apply list_elem_of_In, filter_In in Hs as [_ Hs].
  apply negb_true_iff, bool_decide_eq_false in Hs. split; [done |].
  apply py_strip_idem.
Qed.

(** The regex splitter cuts only after [.], [?] or [!] and before an ASCII
    capital letter: every returned sentence but the last ends with [.], [?]
    or [!], and every returned sentence but the first starts with a capital
    letter A-Z. *)
Theorem split_sentences_regex_cuts (is_word : N -> bool) (text : pystr) :
  Forall ends_terminal (removelast (split_sentences_regex is_word text))
  /\ Forall starts_upper (tl (split_sentences_regex is_word text)).
Proof.
  destruct (regex_split_shape is_word text) as [Hl Ht].
  unfold split_sentences_regex. rewrite removelast_map.
  assert (Htl : forall {A B} (f : A -> B) l, tl (map f l) = map f (tl l))
    by (intros ? ? ? []; done).
  rewrite Htl. split; apply Forall_map, Forall_forall; intros y Hy.
  - apply strip_ends_terminal. rewrite Forall_forall in Hl.
    apply list_elem_of_In in Hy. apply Hl, list_elem_of_In, (in_removelast_filter _ _ _ Hy).
  - apply strip_starts_upper. rewrite Forall_forall in Ht.
    apply list_elem_of_In in Hy. apply Ht, list_elem_of_In, (in_tl_filter _ _ _ Hy).
Qed.

(** A text with no [.], [?] or [!] is not split: the regex splitter returns
    the stripped text as its only sentence, or nothing when the text is
    blank. *)
Theorem split_sentences_regex_no_terminal (is_word : N -> bool) (text : pystr)
    (Hnone : existsb is_terminal text = false) :
  split_sentences_regex is_word text
  = if bool_decide (py_strip text = []) then [] else [py_strip text].
Proof.
  unfold split_sentences_regex, regex_split.
  rewrite (re_split_go_nocut is_word). 2:{
    intros j. destruct (regex_boundary is_word text j) eqn:E; [| done].
    destruct (boundary_parts is_word _ _ E) as (_ & _ & _ & Ht).
    apply char_at_some in Ht as (c & Hc & Htc).
    apply list_elem_of_lookup_2, list_elem_of_In in Hc.
    assert (existsb is_terminal text = true) by (apply existsb_exists; eauto).
    congruence. }
  simpl. destruct (bool_decide (py_strip text = [])); done.
Qed.

Lemma split_sentences_regex_no_terminal_witness :
  existsb is_terminal (lit " hello, world ") = false /\
  split_sentences_regex (fun _ => true) (lit " hello, world ") = [lit "hello, world"].
Proof.
  split; [reflexivity |].
  rewrite (split_sentences_regex_no_terminal (fun _ => true) (lit " hello, world ")
             eq_refl).
  vm_compute. reflexivity.
Defined.

(** *** SRT and TXT outputs *)

Lemma srt_loop_app (idx : Z) (a b : list seg) :
  srt_loop idx (a ++ b) = srt_loop idx a ++ srt_loop (idx + Z.of_nat (length a)) b.
Proof.
  revert idx. induction a as [| sg a IH]; intros idx; simpl.
  - rewrite Z.add_0_r. done.
  - rewrite IH, <- app_assoc. do 2 f_equal. f_equal. lia.
Qed.

(** Writing [a ++ b] to an SRT file gives the file written for [a],
    followed by the entries of [b] numbered on from [length a + 1]. *)
Theorem save_srt_segments_app (a b : list seg) :
  save_srt_segments (a ++ b)
  = save_srt_segments a ++ srt_loop (Z.of_nat (length a) + 1) b.
Proof. unfold save_srt_segments. rewrite srt_loop_app. do 2 f_equal. lia. Qed.

Lemma count_newlines_app (a b : pystr) :
  count_newlines (a ++ b) = (count_newlines a + count_newlines b)%nat.
Proof. unfold count_newlines. rewrite List.filter_app, length_app. done. Qed.

(** The TXT file has one newline per segment, plus the newlines inside the
    segment texts: a transcript whose texts hold no newline gives exactly one
    line per segment. *)
Theorem save_txt_segments_newlines (segs : list seg) :
  count_newlines (save_txt_segments segs)
  = (length segs + sum_list (map (fun sg : seg => count_newlines sg.2) segs))%nat.
Proof.
  induction segs as [| [[s e] t] segs IH]; [done |].
  unfold save_txt_segments in *. simpl.
  rewrite !count_newlines_app, IH. change (count_newlines nl) with 1%nat. simpl. lia.
Qed.

(** *** Errors in the translation loop *)

(** When splitting raises (for instance NLTK's [LookupError]), the exception
    leaves [translate_segment] before any engine call. *)
Theorem translate_segment_split_error split_sentences engine
    (max_line_length max_lines : Z) (src tgt : string) (text : pystr) (e : exc)
    (Hlen : (3 <= length (py_strip text))%nat)
    (Hsplit : split_sentences text = inl e) :
  translate_segment split_sentences engine max_line_length max_lines src tgt text
  = ([], inl e).
Proof.
  unfold translate_segment.
  destruct text as [| c t]; [simpl in Hlen; lia |].
  replace (length (py_strip (c :: t)) <? 3)%nat with false
    by (symmetry; apply Nat.ltb_ge; done).
  simpl. unfold mlift. rewrite Hsplit. done.
Qed.

Lemma translate_segment_split_error_witness :
  (3 <= length (py_strip (lit "Bonjour.")))%nat /\
  translate_segment (fun _ => inl LookupError) engine_echo 40 2 "fra_Latn" "eng_Latn"
    (lit "Bonjour.") = ([], inl LookupError).
Proof.
  split; [vm_compute; lia |].
  apply translate_segment_split_error; [vm_compute; lia | reflexivity].
Defined.

Lemma mmap_inl {A B} (f : A -> M B) (l : list A) (log : list call) (e : exc) :
  mmap f l = (log, inl e) ->
  exists pre x post lgs lg,
    l = pre ++ x :: post
    /\ Forall2 (fun a lg => exists b, f a = (lg, inr b)) pre lgs
    /\ f x = (lg, inl e) /\ log = concat lgs ++ lg.
Proof.
  revert log. induction l as [| a l IH]; intros log H; [done |].
  rewrite mmap_cons in H. destruct (f a) as [lg [e' | b]] eqn:Ef.
  - simpl in H. injection H as <- <-.
    exists [], a, l, [], lg. simpl. done.
  - unfold mbind at 1 in H. destruct (mmap f l) as [lg' [e'' | bs]] eqn:El.
    + simpl in H. injection H as <- <-.
      destruct (IH lg' eq_refl) as (pre & x & post & lgs & lgx & -> & Hpre & Hx & ->).
      exists (a :: pre), x, post, (lg :: lgs), lgx.
      split; [done |]. split; [constructor; eauto |]. split; [done |].
      simpl. rewrite app_assoc. done.
    + simpl in H. injection H. done.
Qed.

(** [translate] raises in exactly three places, each time with the
    exception raised there: loading the tokenizer or the model (then the
    engine is never called), the first segment whose [translate_segment]
    raises (the segments before it were translated, no later segment reaches
    the engine, no file is written), or, after every segment was translated,
    the write of the SRT file or, that one done, of the TXT file. *)
Theorem translate_failure_sources split_sentences engine
    (max_line_length max_lines : Z) (language_code_map : gmap string string)
    load_models write_text
    (segs : list seg) (source_lang target_lang output_srt output_txt : string)
    (log : list call) (e : exc)
    (Herr : translate split_sentences engine max_line_length max_lines
              language_code_map load_models write_text segs source_lang target_lang
              output_srt output_txt = (log, inl e)) :
  let src := map_source_lang language_code_map source_lang in
  (load_models = inl e /\ log = [])
  \/ (load_models = inr tt /\
      exists pre start end_ text post lgs lg,
        segs = pre ++ (start, end_, text) :: post
        /\ Forall2 (fun (sg : seg) lg => exists t,
             translate_segment split_sentences engine max_line_length max_lines
               src target_lang sg.2 = (lg, inr t)) pre lgs
        /\ translate_segment split_sentences engine max_line_length max_lines
             src target_lang text = (lg, inl e)
        /\ log = concat lgs ++ lg)
  \/ (load_models = inr tt /\
      exists ts,
        translate_loop split_sentences engine max_line_length max_lines
          src target_lang segs = (log, inr ts)
        /\ (write_text output_srt (save_srt_segments ts) = inl e
            \/ (write_text output_srt (save_srt_segments ts) = inr tt
                /\ write_text output_txt (save_txt_segments ts) = inl e))).
Proof.
  intros src. unfold translate, mlift in Herr. fold src in Herr.
  destruct load_models as [e0 | []] eqn:EL.
  { simpl in Herr. injection Herr as <- <-. left. done. }
  right. rewrite mbind_nil_inr in Herr.
  destruct (translate_loop split_sentences engine max_line_length max_lines src
              target_lang segs) as [lg0 [e0 | ts]] eqn:El.
  2:{ right. split; [done |]. exists ts. simpl in Herr.
      destruct (write_text output_srt (save_srt_segments ts)) as [e1 | []] eqn:W1;
        simpl in Herr.
      - rewrite app_nil_r in Herr. injection Herr as <- <-.
        split; [done | left; done].
      - destruct (write_text output_txt (save_txt_segments ts)) as [e2 | []] eqn:W2;
          simpl in Herr.
        + rewrite app_nil_r in Herr. injection Herr as <- <-.
          split; [done | right; done].
        + injection Herr. done. }
  left. split; [done |].
  simpl in Herr. injection Herr as <- <-.
  unfold translate_loop in El. apply mmap_inl in El
    as (pre & [[start end_] text] & post & lgs & lg & -> & Hpre & Hx & ->).
  destruct (translate_segment split_sentences engine max_line_length max_lines src
              target_lang text) as [lg' [e' | t]] eqn:Et; simpl in Hx; [| injection Hx; done].
  injection Hx as <- <-.
  exists pre, start, end_, text, post, (map (fun l => l) lgs), lg'.
  rewrite map_id. repeat split; [| done].
  eapply Forall2_impl; [exact Hpre |].
  intros [[s0 e0] t0] l0 [b Hb]. simpl.
  destruct (translate_segment split_sentences engine max_line_length max_lines src
              target_lang t0) as [l1 [e1 | t1]] eqn:E1; simpl in Hb; [done |].
  injection Hb as <- _. rewrite app_nil_r. eauto.
Qed.

Lemma translate_failure_sources_witness :
  translate split_whole (engine_fail_on (lit "Au revoir.")) 40 2 ∅ load_ok write_ok
    [(0, 1, lit "Bonjour."); (1, 2, lit "Au revoir."); (2, 3, lit "Merci.")]
    "fra_Latn" "eng_Latn" "out/t.srt" "out/t.txt"
  = ([("fra_Latn", "eng_Latn", lit "Bonjour."); ("fra_Latn", "eng_Latn", lit "Au revoir.")],
     inl EngineError) /\
  let src := map_source_lang ∅ "fra_Latn" in
  (load_ok = inl EngineError /\
   [("fra_Latn", "eng_Latn", lit "Bonjour."); ("fra_Latn", "eng_Latn", lit "Au revoir.")]
     = [])
  \/ (load_ok = inr tt /\
      exists pre start end_ text post lgs lg,
        [(0, 1, lit "Bonjour."); (1, 2, lit "Au revoir."); (2, 3, lit "Merci.")]
          = pre ++ (start, end_, text) :: post
        /\ Forall2 (fun (sg : seg) lg => exists t,
             translate_segment split_whole (engine_fail_on (lit "Au revoir.")) 40 2
               src "eng_Latn" sg.2 = (lg, inr t)) pre lgs
        /\ translate_segment split_whole (engine_fail_on (lit "Au revoir.")) 40 2
             src "eng_Latn" text = (lg, inl EngineError)
        /\ [("fra_Latn", "eng_Latn", lit "Bonjour."); ("fra_Latn", "eng_Latn", lit "Au revoir.")]
           = concat lgs ++ lg)
  \/ (load_ok = inr tt /\
      exists ts,
        translate_loop split_whole (engine_fail_on (lit "Au revoir.")) 40 2
          src "eng_Latn"
          [(0, 1, lit "Bonjour."); (1, 2, lit "Au revoir."); (2, 3, lit "Merci.")]
        = ([("fra_Latn", "eng_Latn", lit "Bonjour."); ("fra_Latn", "eng_Latn", lit "Au revoir.")],
           inr ts)
        /\ (write_ok "out/t.srt" (save_srt_segments ts) = inl EngineError
            \/ (write_ok "out/t.srt" (save_srt_segments ts) = inr tt
                /\ write_ok "out/t.txt" (save_txt_segments ts) = inl EngineError))).
Proof.
  assert (H : translate split_whole (engine_fail_on (lit "Au revoir.")) 40 2 ∅ load_ok write_ok
    [(0, 1, lit "Bonjour."); (1, 2, lit "Au revoir."); (2, 3, lit "Merci.")]
    "fra_Latn" "eng_Latn" "out/t.srt" "out/t.txt"
  = ([("fra_Latn", "eng_Latn", lit "Bonjour."); ("fra_Latn", "eng_Latn", lit "Au revoir.")],
     inl EngineError)) by (vm_compute; reflexivity).
  split; [exact H |].
  exact (translate_failure_sources _ _ _ _ _ _ _ _ _ _ _ _ _ _ H).
Defined.

(** *** What [transcribe] writes *)

(** The JSON transcript [transcribe] writes loads back through
    [load_segments] ([src/translate_only.py]): one segment per recognised
    segment, with its start and end times and its text stripped (stripping
    it again changes nothing), and as language the detected code mapped
    through [language_code_map] ([info.language] itself when it has no
    entry). *)
Theorem transcribe_json_loads_back (language_code_map : gmap string string)
    (recognized : list seg) (detected : string) :
  exists jsegs segs,
    load_segments (transcribe_outputs language_code_map recognized detected).1
      = inr (JArr jsegs,
             JStr (lit (match language_code_map !! detected with
                        | Some v => v | None => detected end)))
    /\ map seg_of_json jsegs = map Some segs
    /\ Forall2 (fun (r s : seg) => r.1 = s.1 /\ s.2 = py_strip r.2) recognized segs
    /\ Forall (fun s : seg => py_strip s.2 = s.2) segs.
Proof.
  set (segs := map (fun sg : seg => let '(start, end_, text) := sg in
                                    (start, end_, py_strip text)) recognized).
  exists (map seg_to_json segs), segs.
  split; [| split; [apply seg_of_to_json | split]].
  - unfold transcribe_outputs, save_json_segments, load_segments. cbv zeta.
    cbn [fst]. fold segs.
    destruct (dict_get_transcript (JArr (map seg_to_json segs))
                (JStr (lit (match language_code_map !! detected with
                            | Some v => v | None => detected end)))) as [H1 H2].
    rewrite H1, H2. done.
  - subst segs. induction recognized as [| [[s e] t] r IH]; constructor; done.
  - subst segs. apply Forall_map, Forall_forall. intros [[s e] t] _.
    apply py_strip_idem.
Qed.

(** *** Embedding subtitles *)

(** Both embedding functions check their inputs first: when the video or the
    subtitle file is missing they raise [FileNotFoundError] without creating
    a directory or running ffmpeg. *)
Theorem embed_missing_input {World} path_exists dirname makedirs run_process
    (ffmpeg_conf : gmap string string) (video subs output : string) (w : World)
    (Hmiss : path_exists w video = false \/ path_exists w subs = false) :
  add_soft_subs World path_exists dirname makedirs run_process video subs output w
    = ([], inl FileNotFoundError)
  /\ add_burned_subs World path_exists dirname makedirs run_process ffmpeg_conf
       video subs output w = ([], inl FileNotFoundError).
Proof.
  unfold add_soft_subs, add_burned_subs.
  destruct Hmiss as [H | H]; rewrite H; [done |].
  destruct (path_exists w video); done.
Qed.

Lemma embed_missing_input_witness :
  add_soft_subs unit (fun _ p => String.eqb p "in.mp4") id (fun _ w => inr w)
    (fun _ w => inr w) "in.mp4" "subs.srt" "out/v.mp4" tt
  = ([], inl FileNotFoundError)
  /\ add_burned_subs unit (fun _ p => String.eqb p "in.mp4") id (fun _ w => inr w)
       (fun _ w => inr w) ∅ "in.mp4" "subs.srt" "out/v.mp4" tt
     = ([], inl FileNotFoundError).
Proof. apply embed_missing_input. right. reflexivity. Defined.

Lemma burned_command_ok (ffmpeg_conf : gmap string string) (video subs output : string)
    (cmd : list string) :
  burned_command ffmpeg_conf video subs output = inr cmd ->
  Forall (fun k => exists v, ffmpeg_conf !! k = Some v) burned_keys.
Proof.
  unfold burned_command, burned_style, sum_bind, dict_index.
  repeat match goal with
  | |- context [ffmpeg_conf !! ?k] =>
      let E := fresh "E" in destruct (ffmpeg_conf !! k) eqn:E; [| done]
  end.
  intros _. repeat constructor; eauto.
Qed.

Lemma burned_command_error (ffmpeg_conf : gmap string string) (video subs output : string)
    (e : exc) :
  burned_command ffmpeg_conf video subs output = inl e -> e = KeyError.
Proof.
  unfold burned_command, burned_style, sum_bind, dict_index.
  repeat match goal with
  | |- context [ffmpeg_conf !! ?k] =>
      let E := fresh "E" in destruct (ffmpeg_conf !! k) eqn:E; [| congruence]
  end.
  done.
Qed.

(** A configuration missing one of the keys [add_burned_subs] reads makes it
    raise [KeyError] after it has created the output directory, and ffmpeg
    is not run. *)
Theorem add_burned_subs_missing_key {World} path_exists dirname makedirs run_process
    (ffmpeg_conf : gmap string string) (video subs output : string) (w w1 : World)
    (k : string)
    (Hv : path_exists w video = true) (Hs : path_exists w subs = true)
    (Hdir : makedirs (dirname output) w = inr w1)
    (Hk : k ∈ burned_keys) (Hnone : ffmpeg_conf !! k = None) :
  add_burned_subs World path_exists dirname makedirs run_process ffmpeg_conf
    video subs output w = ([EMakedirs (dirname output)], inl KeyError).
Proof.
  unfold add_burned_subs. rewrite Hv, Hs. simpl. unfold eff_step. rewrite Hdir.
  destruct (burned_command ffmpeg_conf video subs output) as [e | cmd] eqn:Ec.
  - apply burned_command_error in Ec as ->. done.
  - apply burned_command_ok in Ec. rewrite Forall_forall in Ec.
    destruct (Ec k Hk) as [v Hv']. congruence.
Qed.

Lemma add_burned_subs_missing_key_witness :
  add_burned_subs unit (fun _ _ => true) (fun _ => "out") (fun _ w => inr w)
    (fun _ w => inr w) (<["subtitle_position" := "top"]> ∅)
    "in.mp4" "subs.srt" "out/v.mp4" tt
  = ([EMakedirs "out"], inl KeyError).
Proof.
  exact (add_burned_subs_missing_key (World := unit) (fun _ _ => true) (fun _ => "out")
           (fun _ w => inr w) (fun _ w => inr w) (<["subtitle_position" := "top"]> ∅)
           "in.mp4" "subs.srt" "out/v.mp4" tt tt "font_name" eq_refl eq_refl eq_refl
           ltac:(apply list_elem_of_In; right; left; reflexivity) eq_refl).
Defined.

(** *** Audio extraction *)

(** [extract_audio_from_video] checks the video first: when it is missing,
    [FileNotFoundError] is raised before either back end runs. *)
Theorem extract_audio_missing_video {World} path_exists dirname makedirs run_process
    open_clip write_audiofile close_clip (ffmpeg_conf : gmap string string)
    (use_ffmpeg : bool) (video_file output_audio : string) (w : World)
    (Hmiss : path_exists w video_file = false) :
  extract_audio_from_video World path_exists dirname makedirs run_process open_clip
    write_audiofile close_clip ffmpeg_conf use_ffmpeg video_file output_audio w
  = ([], inl FileNotFoundError).
Proof. unfold extract_audio_from_video. rewrite Hmiss. done. Qed.

Lemma extract_audio_missing_video_witness :
  extract_audio_from_video unit (fun _ _ => false) id (fun _ w => inr w)
    (fun _ w => inr w) (fun _ w => inr w) (fun _ w => inr w) (fun w => inr w)
    ∅ true "in.mp4" "audio/a.mp3" tt
  = ([], inl FileNotFoundError).
Proof. apply extract_audio_missing_video. reflexivity. Defined.

(** With [use_ffmpeg], extraction makes exactly one attempt to run ffmpeg
    and nothing else: it does not create the output directory, and reading
    [ffmpeg.hwaccel] never raises. [-hwaccel h] is passed only when the
    configuration sets [hwaccel] to some [h] other than ["none"]. *)
Theorem extract_with_ffmpeg_effects {World} path_exists dirname makedirs run_process
    open_clip write_audiofile close_clip (ffmpeg_conf : gmap string string)
    (video_file output_audio : string) (w : World)
    (Hv : path_exists w video_file = true) :
  let hw := match ffmpeg_conf !! "hwaccel" with
            | Some h => if String.eqb h "none" then [] else ["-hwaccel"; h]
            | None => []
            end in
  (extract_audio_from_video World path_exists dirname makedirs run_process open_clip
     write_audiofile close_clip ffmpeg_conf true video_file output_audio w).1
  = [ERun (["ffmpeg"] ++ hw
           ++ ["-i"; video_file; "-vn"; "-acodec"; "mp3"; "-y"; output_audio])].
Proof.
  intros hw. unfold extract_audio_from_video. rewrite Hv. simpl.
  unfold extract_audio_with_ffmpeg, extract_command, hwaccel_setting, dict_index, hw.
  destruct (ffmpeg_conf !! "hwaccel") as [h |] eqn:Eh; simpl.
  - destruct (String.eqb h "none"); simpl; unfold eff_step;
      destruct (run_process _ w); done.
  - unfold eff_step. destruct (run_process _ w); done.
Qed.

Lemma extract_with_ffmpeg_effects_witness :
  (extract_audio_from_video unit (fun _ _ => true) id (fun _ w => inr w)
     (fun _ w => inr w) (fun _ w => inr w) (fun _ w => inr w) (fun w => inr w)
     (<["hwaccel" := "cuda"]> ∅) true "in.mp4" "audio/a.mp3" tt).1
  = [ERun ["ffmpeg"; "-hwaccel"; "cuda"; "-i"; "in.mp4"; "-vn"; "-acodec"; "mp3";
           "-y"; "audio/a.mp3"]].
Proof.
  exact (extract_with_ffmpeg_effects (World := unit) (fun _ _ => true) id
           (fun _ w => inr w) (fun _ w => inr w) (fun _ w => inr w) (fun _ w => inr w)
           (fun w => inr w) (<["hwaccel" := "cuda"]> ∅) "in.mp4" "audio/a.mp3" tt
           eq_refl).
Defined.

(** The MoviePy back end opens the clip, creates the output directory, then
    writes the audio; when writing fails the exception propagates and the
    clip is never closed. *)
Theorem extract_with_moviepy_write_failure {World} path_exists dirname makedirs
    run_process open_clip write_audiofile close_clip (ffmpeg_conf : gmap string string)
    (video_file output_audio : string) (w w1 w2 : World) (e : exc)
    (Hv : path_exists w video_file = true)
    (Hopen : open_clip video_file w = inr w1)
    (Hdir : makedirs (dirname output_audio) w1 = inr w2)
    (Hwrite : write_audiofile output_audio w2 = inl e) :
  extract_audio_from_video World path_exists dirname makedirs run_process open_clip
    write_audiofile close_clip ffmpeg_conf false video_file output_audio w
  = ([EOpenClip video_file; EMakedirs (dirname output_audio); EWriteAudio output_audio],
     inl e).
Proof.
  unfold extract_audio_from_video, extract_audio_with_moviepy, eff_step.
  rewrite Hv. simpl. rewrite Hopen, Hdir, Hwrite. done.
Qed.

Lemma extract_with_moviepy_write_failure_witness :
  extract_audio_from_video unit (fun _ _ => true) (fun _ => "audio") (fun _ w => inr w)
    (fun _ w => inr w) (fun _ w => inr w) (fun _ _ => inl OSError) (fun w => inr w)
    ∅ false "in.mp4" "audio/a.mp3" tt
  = ([EOpenClip "in.mp4"; EMakedirs "audio"; EWriteAudio "audio/a.mp3"], inl OSError).
Proof.
  exact (extract_with_moviepy_write_failure (World := unit) (fun _ _ => true)
           (fun _ => "audio") (fun _ w => inr w) (fun _ w => inr w) (fun _ w => inr w)
           (fun _ _ => inl OSError) (fun w => inr w) ∅ "in.mp4" "audio/a.mp3"
           tt tt tt OSError eq_refl eq_refl eq_refl eq_refl).
Defined.

(** *** The pipeline with an invalid subtitle mode *)

Lemma run_step_invalid_mode {World} step_extract_audio step_transcribe step_translate
    (soft burned soft' burned' : string -> World -> exc + World)
    (video_file mode : string) (s : stage) (w : World)
    (Hsoft : mode <> "soft") (Hburned : mode <> "burned") :
  run_step World step_extract_audio step_transcribe step_translate soft burned
    video_file mode s w
  = run_step World step_extract_audio step_transcribe step_translate soft' burned'
      video_file mode s w
  /\ (s = Subtitles ->
      run_step World step_extract_audio step_transcribe step_translate soft burned
        video_file mode s w = inl ValueError).
Proof.
  destruct s; simpl; split; try done.
  all: unfold step_subtitles; apply String.eqb_neq in Hsoft, Hburned;
       rewrite Hsoft, Hburned; done.
Qed.

Lemma run_stages_invalid_mode {World} step_extract_audio step_transcribe step_translate
    (soft burned soft' burned' : string -> World -> exc + World)
    (steps : list string) (video_file mode : string) (l : list stage) (w : World)
    (Hsoft : mode <> "soft") (Hburned : mode <> "burned") :
  run_stages World step_extract_audio step_transcribe step_translate soft burned
    steps video_file mode l w
  = run_stages World step_extract_audio step_transcribe step_translate soft' burned'
      steps video_file mode l w
  /\ (In Subtitles l -> requested steps Subtitles = true ->
      exists e, (run_stages World step_extract_audio step_transcribe step_translate
                   soft burned steps video_file mode l w).2 = inl e).
Proof.
  revert w. induction l as [| s l IH]; intros w; simpl; [done |].
  destruct (run_step_invalid_mode step_extract_audio step_transcribe step_translate
              soft burned soft' burned' video_file mode s w Hsoft Hburned) as [Heq Hsub].
  destruct (requested steps s) eqn:Hr.
  - rewrite <- Heq.
    destruct (run_step World step_extract_audio step_transcribe step_translate soft burned
                video_file mode s w) as [e | w'] eqn:Es.
    + split; [done |]. intros _ _. eauto.
    + destruct (IH w') as [IHeq IHerr]. rewrite <- IHeq. split; [done |].
      intros [Hs | Hin] Hreq.
      * specialize (Hsub Hs). discriminate.
      * destruct (run_stages World step_extract_audio step_transcribe step_translate soft
                    burned steps video_file mode l w') as [tr r] eqn:Er.
        destruct (IHerr Hin Hreq) as [e He]. simpl in *. eauto.
  - destruct (IH w) as [IHeq IHerr]. split; [done |].
    intros [Hs | Hin] Hreq; [subst s; congruence | eauto].
Qed.

(** When ["subtitles"] is requested and the subtitle mode in force (the
    [mode] argument, else [subtitles.mode] of the configuration, else
    ["burned"]) is neither ["soft"] nor ["burned"], [run_pipeline] never
    completes, and its outcome, stages entered included, does not depend on
    the two embedding back ends: neither is ever called. *)
Theorem run_pipeline_invalid_mode {World} path_exists resolve video_dir_entries
    makedirs_audio step_extract_audio step_transcribe step_translate
    (soft burned soft' burned' : string -> World -> exc + World)
    (config_mode : option string) (steps : list string)
    (mode video_arg : option string) (w : World)
    (Hreq : requested steps Subtitles = true)
    (Hsoft : final_mode config_mode mode <> "soft")
    (Hburned : final_mode config_mode mode <> "burned") :
  run_pipeline World path_exists resolve video_dir_entries makedirs_audio
    step_extract_audio step_transcribe step_translate soft burned config_mode
    steps mode video_arg w
  = run_pipeline World path_exists resolve video_dir_entries makedirs_audio
      step_extract_audio step_transcribe step_translate soft' burned' config_mode
      steps mode video_arg w
  /\ exists e,
       (run_pipeline World path_exists resolve video_dir_entries makedirs_audio
          step_extract_audio step_transcribe step_translate soft burned config_mode
          steps mode video_arg w).2 = inl e.
Proof.
  unfold run_pipeline.
  destruct (select_video_file World path_exists resolve video_dir_entries w video_arg)
    as [e | video_file]; [split; [done | eauto] |].
  destruct (makedirs_audio w) as [e | w1]; [split; [done | eauto] |].
  destruct (run_stages_invalid_mode step_extract_audio step_transcribe step_translate
              soft burned soft' burned' steps video_file (final_mode config_mode mode)
              stage_order w1 Hsoft Hburned) as [Heq Herr].
  split; [done |]. apply Herr; [simpl; tauto | done].
Qed.

Lemma run_pipeline_invalid_mode_witness :
  run_pipeline unit (fun _ _ => true) id (fun _ => []) (fun w => inr w)
    (fun _ w => inr w) (fun w => inr w) (fun w => inr w)
    (fun _ w => inr w) (fun _ w => inr w) (Some "hard") ["subtitles"] None
    (Some "in.mp4") tt
  = ([Subtitles], inl ValueError) /\
  (run_pipeline unit (fun _ _ => true) id (fun _ => []) (fun w => inr w)
    (fun _ w => inr w) (fun w => inr w) (fun w => inr w)
    (fun _ w => inr w) (fun _ w => inr w) (Some "hard") ["subtitles"] None
    (Some "in.mp4") tt
  = run_pipeline unit (fun _ _ => true) id (fun _ => []) (fun w => inr w)
    (fun _ w => inr w) (fun w => inr w) (fun w => inr w)
    (fun _ _ => inl OSError) (fun _ _ => inl OSError) (Some "hard") ["subtitles"] None
    (Some "in.mp4") tt
  /\ exists e,
       (run_pipeline unit (fun _ _ => true) id (fun _ => []) (fun w => inr w)
          (fun _ w => inr w) (fun w => inr w) (fun w => inr w)
          (fun _ w => inr w) (fun _ w => inr w) (Some "hard") ["subtitles"] None
          (Some "in.mp4") tt).2 = inl e).
Proof.
  split; [vm_compute; reflexivity |].
  exact (run_pipeline_invalid_mode (World := unit) (fun _ _ => true) id (fun _ => [])
           (fun w => inr w) (fun _ w => inr w) (fun w => inr w) (fun w => inr w)
           (fun _ w => inr w) (fun _ w => inr w) (fun _ _ => inl OSError)
           (fun _ _ => inl OSError) (Some "hard") ["subtitles"] None (Some "in.mp4") tt
           eq_refl ltac:(vm_compute; discriminate) ltac:(vm_compute; discriminate)).
Defined.
